(** * Zeek log data dictionary: relationship graph, selection state and styling

    A shallow embedding of the logic of [src/App.tsx] (selection and filter
    state), of the [GraphVisualization] component (node and link
    construction, guards of the simulation effect) and of the two
    [getTypeColor] helpers, together with the properties stated for them.

    Conventions of the embedding:
    - a JavaScript [Set<string>] is a [gset string]; only [has], [add],
      [delete] and [size] are used by the code;
    - arrays are lists, [push] appends at the end;
    - a value that may be [undefined] is an [option]; reading a property of
      [undefined] raises [TypeError], modelled by the [result] monad;
    - viewport sizes are IEEE doubles, modelled by primitive floats;
    - strings are sequences of ASCII characters. *)

From Stdlib Require Import Ascii String ZArith Floats.PrimFloat.
From stdpp Require Import base option list gmap strings.

Local Open Scope string_scope.
Local Open Scope list_scope.

(** ** Exceptions *)

Inductive exn : Type :=
| TypeError (msg : string).

Inductive result (A : Type) : Type :=
| Ok (a : A)
| Throw (e : exn).
Arguments Ok {A} a.
Arguments Throw {A} e.

#[global] Instance result_ret : MRet result := fun A a => Ok a.
#[global] Instance result_bind : MBind result := fun A B k r =>
  match r with
  | Ok a => k a
  | Throw e => Throw e
  end.

(** [foldM] is the shape of [array.forEach] with a body that may throw:
    the accumulator is threaded left to right and the first exception
    aborts the loop. *)
Fixpoint foldM {A S : Type} (body : S → A → result S) (l : list A) (s : S)
  : result S :=
  match l with
  | [] => Ok s
  | a :: l' => s' ← body s a; foldM body l' s'
  end.

(** ** Strings *)

(** [s.includes(sub)]: [sub] occurs in [s] at some offset. *)
Fixpoint includes (s sub : string) : bool :=
  String.prefix sub s ||
  match s with
  | EmptyString => false
  | String _ s' => includes s' sub
  end.

(** The reading of "is a substring of" used in the statements. *)
Definition is_substring (sub s : string) : Prop :=
  ∃ pre post : string, s = pre +:+ sub +:+ post.

(** A string is truthy when it is not empty. *)
Definition nonempty (s : string) : bool := negb (String.eqb s "").

(** ASCII lower-casing, used where a statement is evaluated on concrete
    text; the definitions below take the lower-casing function as a
    parameter. *)
Definition ascii_lower (c : ascii) : ascii :=
  let n := nat_of_ascii c in
  if (65 <=? n)%nat && (n <=? 90)%nat then ascii_of_nat (n + 32) else c.

Fixpoint asciiToLowerCase (s : string) : string :=
  match s with
  | EmptyString => EmptyString
  | String c s' => String (ascii_lower c) (asciiToLowerCase s')
  end.

(** ** Catalog records *)

Module ZeekField.
(** Modelled from the spec: the [ZeekField] interface of the data module
    [data/zeekLogs], which is not among the sources. The members are those of
    the Field entry of the data model, which are also the ones the
    components read. *)
Record t : Type := mk {
  name : string;
  type : string;
  description : string;
  optional : bool
}.
End ZeekField.

Module ZeekLogType.
(** Modelled from the spec: the [ZeekLogType] interface of the same module,
    with the members of the LogType entry of the data model; [relatedLogs]
    is an array of ids, iterated in order. *)
Record t : Type := mk {
  id : string;
  name : string;
  category : string;
  color : string;
  description : string;
  fields : list ZeekField.t;
  relatedLogs : list string
}.
End ZeekLogType.

(** ** Graph records of [GraphVisualization] *)

Module Node.
Record t : Type := mk {
  id : string;
  name : string;
  category : string;
  color : string;
  radius : Z;
  connections : Z
}.
End Node.

Module Link.
Record t : Type := mk {
  source : string;
  target : string;
  strength : Z;
  pivotProperties : list string;
  connectionCount : Z
}.
End Link.

(** ** Pivot detection ([findPivotProperties]) *)

(** The four field predicates, written inline in the source. *)
Definition isUidField (f : ZeekField.t) : bool :=
  String.eqb (ZeekField.name f) "uid".

Definition isIpField (f : ZeekField.t) : bool :=
  includes (ZeekField.name f) "id.orig_h" ||
  includes (ZeekField.name f) "id.resp_h".

Definition isHashField (f : ZeekField.t) : bool :=
  includes (ZeekField.name f) "hash" ||
  String.eqb (ZeekField.name f) "md5" ||
  String.eqb (ZeekField.name f) "sha1".

Definition isHostField (f : ZeekField.t) : bool :=
  String.eqb (ZeekField.name f) "query" ||
  String.eqb (ZeekField.name f) "host" ||
  String.eqb (ZeekField.name f) "server_name".

(** [log.fields.some(p)] on a value that may be [undefined]: reading
    [fields] of [undefined] raises. *)
Definition fieldsSome (log : option ZeekLogType.t) (p : ZeekField.t → bool)
  : result bool :=
  match log with
  | Some l => Ok (existsb p (ZeekLogType.fields l))
  | None =>
      Throw (TypeError "Cannot read properties of undefined (reading 'fields')")
  end.

Definition pushIf (c : bool) (pivots : list string) (tag : string)
  : list string :=
  if c then pivots ++ [tag] else pivots.

Definition findPivotProperties (log1 log2 : option ZeekLogType.t)
  : result (list string) :=
  let pivots : list string := [] in
  uid1 ← fieldsSome log1 isUidField;
  uid ← (if uid1 : bool then fieldsSome log2 isUidField else Ok false);
  let pivots := pushIf uid pivots "uid" in
  hasIpFields1 ← fieldsSome log1 isIpField;
  hasIpFields2 ← fieldsSome log2 isIpField;
  let pivots := pushIf (hasIpFields1 && hasIpFields2) pivots "IP" in
  hasHashFields1 ← fieldsSome log1 isHashField;
  hasHashFields2 ← fieldsSome log2 isHashField;
  let pivots := pushIf (hasHashFields1 && hasHashFields2) pivots "hash" in
  hasHostFields1 ← fieldsSome log1 isHostField;
  hasHostFields2 ← fieldsSome log2 isHostField;
  let pivots := pushIf (hasHostFields1 && hasHostFields2) pivots "hostname" in
  Ok (pivots ++ ["ts"]).

(** ** The relationship resolver: nodes and links of the effect *)

Definition filterActive (data : list ZeekLogType.t) (activeNodes : gset string)
  : list ZeekLogType.t :=
  filter (λ log, ZeekLogType.id log ∈ activeNodes) data.

Definition connectionsOf (log : ZeekLogType.t) (activeNodes : gset string)
  : Z :=
  Z.of_nat (length (filter (λ relatedId, relatedId ∈ activeNodes)
                           (ZeekLogType.relatedLogs log))).

Definition radiusOf (connections : Z) : Z := Z.max 20 (15 + connections * 5).

Definition makeNode (activeNodes : gset string) (log : ZeekLogType.t)
  : Node.t :=
  let connections := connectionsOf log activeNodes in
  {| Node.id := ZeekLogType.id log;
     Node.name := ZeekLogType.name log;
     Node.category := ZeekLogType.category log;
     Node.color := ZeekLogType.color log;
     Node.radius := radiusOf connections;
     Node.connections := connections |}.

Definition makeNodes (filteredData : list ZeekLogType.t)
  (activeNodes : gset string) : list Node.t :=
  map (makeNode activeNodes) filteredData.

(** The predicate of [links.find]: the link joins [a] and [b] in either
    direction. *)
Definition joins (a b : string) (link : Link.t) : bool :=
  String.eqb (Link.source link) a && String.eqb (Link.target link) b ||
  String.eqb (Link.source link) b && String.eqb (Link.target link) a.

Definition findLog (filteredData : list ZeekLogType.t) (i : string)
  : option ZeekLogType.t :=
  List.find (λ l, String.eqb (ZeekLogType.id l) i) filteredData.

(** Body of the inner [forEach] over [log.relatedLogs]. *)
Definition addLink (filteredData : list ZeekLogType.t)
  (activeNodes : gset string) (log : ZeekLogType.t)
  (links : list Link.t) (relatedId : string) : result (list Link.t) :=
  if bool_decide (relatedId ∈ activeNodes) &&
     negb (String.eqb (ZeekLogType.id log) relatedId)
  then
    match List.find (joins (ZeekLogType.id log) relatedId) links with
    | Some existingLink => Ok links
    | None =>
        let sourceLog := findLog filteredData (ZeekLogType.id log) in
        let targetLog := findLog filteredData relatedId in
        pivotProps ← findPivotProperties sourceLog targetLog;
        Ok (links ++
            [ {| Link.source := ZeekLogType.id log;
                 Link.target := relatedId;
                 Link.strength := 1;
                 Link.pivotProperties := pivotProps;
                 Link.connectionCount := Z.of_nat (length pivotProps) |} ])
    end
  else Ok links.

(** Body of the outer [forEach] over [filteredData]. *)
Definition addLinksOf (filteredData : list ZeekLogType.t)
  (activeNodes : gset string) (links : list Link.t) (log : ZeekLogType.t)
  : result (list Link.t) :=
  foldM (addLink filteredData activeNodes log)
        (ZeekLogType.relatedLogs log) links.

Definition makeLinks (filteredData : list ZeekLogType.t)
  (activeNodes : gset string) : result (list Link.t) :=
  foldM (addLinksOf filteredData activeNodes) filteredData [].

(** Nodes and links for a catalog and an active set. *)
Definition resolver (data : list ZeekLogType.t) (activeNodes : gset string)
  : result (list Node.t * list Link.t) :=
  let filteredData := filterActive data activeNodes in
  let nodes := makeNodes filteredData activeNodes in
  links ← makeLinks filteredData activeNodes;
  Ok (nodes, links).

(** ** The simulation effect and the empty-state overlay *)

Record Dimensions : Type := mkDimensions {
  width : float;
  height : float
}.

(** [x === 0] on doubles. *)
Definition isZero (x : float) : bool := PrimFloat.eqb x 0%float.

(** What one run of the effect leaves behind: nothing (an early [return]),
    or a force simulation over the nodes and links, centred in the
    viewport. *)
Inductive Outcome : Type :=
| Deferred
| NothingToDraw
| Simulation (nodes : list Node.t) (links : list Link.t)
    (centerX centerY : float).

Definition graphEffect (svgMounted : bool) (dimensions : Dimensions)
  (data : list ZeekLogType.t) (activeNodes : gset string) : result Outcome :=
  if negb svgMounted || isZero (width dimensions) ||
     isZero (height dimensions)
  then Ok Deferred
  else
    let filteredData := filterActive data activeNodes in
    if (length filteredData =? 0)%nat then Ok NothingToDraw
    else
      '(nodes, links) ← resolver data activeNodes;
      Ok (Simulation nodes links
            (width dimensions / 2)%float (height dimensions / 2)%float).

Definition startsSimulation (o : result Outcome) : bool :=
  match o with
  | Ok (Simulation _ _ _ _) => true
  | _ => false
  end.

(** The overlay rendered under [activeNodes.size === 0]. *)
Definition emptyStateOverlay (activeNodes : gset string) : option string :=
  if (size activeNodes =? 0)%nat then Some "No Log Types Selected" else None.

(** ** Selection and filter state of [App] *)

Record AppState : Type := mkAppState {
  activeNodes : gset string;
  selectedNode : option string;
  selectedCategories : gset string;
  searchQuery : string
}.

(** [selectedNode === nodeId] for a [string | null] left operand. *)
Definition isSelected (selected : option string) (nodeId : string) : bool :=
  match selected with
  | Some s => String.eqb s nodeId
  | None => false
  end.

Section App.

(** The catalog of the data module and [String.prototype.toLowerCase]. *)
Variable zeekLogs : list ZeekLogType.t.
Variable toLowerCase : string → string.

Definition matchesSearch (searchQuery : string) (log : ZeekLogType.t) : bool :=
  let query := toLowerCase searchQuery in
  let matchesName := includes (toLowerCase (ZeekLogType.name log)) query in
  let matchesDescription :=
    includes (toLowerCase (ZeekLogType.description log)) query in
  let matchesFields :=
    existsb (λ field,
               includes (toLowerCase (ZeekField.name field)) query ||
               includes (toLowerCase (ZeekField.description field)) query)
            (ZeekLogType.fields log) in
  negb (negb matchesName && negb matchesDescription && negb matchesFields).

(** The callback of [zeekLogs.filter] in [filteredLogs]. *)
Definition keepLog (st : AppState) (log : ZeekLogType.t) : bool :=
  if negb (bool_decide (ZeekLogType.category log ∈ selectedCategories st))
  then false
  else if nonempty (searchQuery st)
  then (if negb (matchesSearch (searchQuery st) log) then false else true)
  else true.

Definition filteredLogs (st : AppState) : list ZeekLogType.t :=
  List.filter (keepLog st) zeekLogs.

Definition toggleNode (nodeId : string) (st : AppState) : AppState :=
  if bool_decide (nodeId ∈ activeNodes st)
  then {| activeNodes := activeNodes st ∖ {[ nodeId ]};
          selectedNode :=
            if isSelected (selectedNode st) nodeId then None
            else selectedNode st;
          selectedCategories := selectedCategories st;
          searchQuery := searchQuery st |}
  else {| activeNodes := activeNodes st ∪ {[ nodeId ]};
          selectedNode := selectedNode st;
          selectedCategories := selectedCategories st;
          searchQuery := searchQuery st |}.

Definition toggleCategory (categoryId : string) (st : AppState) : AppState :=
  {| activeNodes := activeNodes st;
     selectedNode := selectedNode st;
     selectedCategories :=
       if bool_decide (categoryId ∈ selectedCategories st)
       then selectedCategories st ∖ {[ categoryId ]}
       else selectedCategories st ∪ {[ categoryId ]};
     searchQuery := searchQuery st |}.

(** Body of [categoryLogs.forEach]: the pair is [newSet] and the pending
    value of [selectedNode]; the comparison reads the [selectedNode] of the
    render that created the callback. *)
Definition toggleOne (enable : bool) (selected : option string)
  (acc : gset string * option string) (log : ZeekLogType.t)
  : gset string * option string :=
  if enable then (acc.1 ∪ {[ ZeekLogType.id log ]}, acc.2)
  else (acc.1 ∖ {[ ZeekLogType.id log ]},
        if isSelected selected (ZeekLogType.id log) then None else acc.2).

Definition toggleAllInCategory (categoryId : string) (enable : bool)
  (st : AppState) : AppState :=
  let categoryLogs :=
    List.filter (λ log, String.eqb (ZeekLogType.category log) categoryId)
                zeekLogs in
  let r := fold_left (toggleOne enable (selectedNode st)) categoryLogs
                     (activeNodes st, selectedNode st) in
  {| activeNodes := r.1;
     selectedNode := r.2;
     selectedCategories := selectedCategories st;
     searchQuery := searchQuery st |}.

End App.

(** ** Field type styling ([getTypeColor]) *)

(** A value read from an object literal: a string it holds, a member it
    inherits from [Object.prototype], or [undefined]. *)
Inductive Value : Type :=
| VString (s : string)
| VInherited (key : string)
| VUndefined.

Definition truthy (v : Value) : bool :=
  match v with
  | VString s => nonempty s
  | VInherited _ => true
  | VUndefined => false
  end.

(** Property names every object literal inherits from [Object.prototype]. *)
Definition objectPrototypeKeys : list string :=
  [ "constructor"; "hasOwnProperty"; "isPrototypeOf"; "propertyIsEnumerable";
    "toLocaleString"; "toString"; "valueOf"; "__proto__";
    "__defineGetter__"; "__defineSetter__";
    "__lookupGetter__"; "__lookupSetter__" ].

(** [obj[key]] for an object literal with the own properties [own]. *)
Definition getProperty (own : gmap string string) (key : string) : Value :=
  match own !! key with
  | Some s => VString s
  | None =>
      if existsb (String.eqb key) objectPrototypeKeys then VInherited key
      else VUndefined
  end.

(** [a || b]. *)
Definition orElse (a b : Value) : Value := if truthy a then a else b.

Definition knownTypes : list string :=
  [ "time"; "string"; "addr"; "port"; "count"; "bool"; "interval"; "enum";
    "vector"; "set"; "record" ].

Module FieldDetails.
Definition colors : gmap string string :=
  list_to_map
    [ ("time", "text-blue-400 bg-blue-400/10 border-blue-400/20");
      ("string", "text-green-400 bg-green-400/10 border-green-400/20");
      ("addr", "text-purple-400 bg-purple-400/10 border-purple-400/20");
      ("port", "text-yellow-400 bg-yellow-400/10 border-yellow-400/20");
      ("count", "text-orange-400 bg-orange-400/10 border-orange-400/20");
      ("bool", "text-pink-400 bg-pink-400/10 border-pink-400/20");
      ("interval", "text-cyan-400 bg-cyan-400/10 border-cyan-400/20");
      ("enum", "text-indigo-400 bg-indigo-400/10 border-indigo-400/20");
      ("vector", "text-red-400 bg-red-400/10 border-red-400/20");
      ("set", "text-emerald-400 bg-emerald-400/10 border-emerald-400/20");
      ("record", "text-violet-400 bg-violet-400/10 border-violet-400/20") ].

Definition defaultStyle : string :=
  "text-slate-400 bg-slate-400/10 border-slate-400/20".

Definition getTypeColor (type : string) : Value :=
  orElse (getProperty colors type) (VString defaultStyle).
End FieldDetails.

Module LogTypeCard.
Definition colors : gmap string string :=
  list_to_map
    [ ("time", "text-blue-400");
      ("string", "text-green-400");
      ("addr", "text-purple-400");
      ("port", "text-yellow-400");
      ("count", "text-orange-400");
      ("bool", "text-pink-400");
      ("interval", "text-cyan-400");
      ("enum", "text-indigo-400");
      ("vector", "text-red-400");
      ("set", "text-emerald-400");
      ("record", "text-violet-400") ].

Definition defaultStyle : string := "text-slate-400".

Definition getTypeColor (type : string) : Value :=
  orElse (getProperty colors type) (VString defaultStyle).
End LogTypeCard.

(** ** Concrete catalogs used to evaluate the definitions *)

Definition mkField (n : string) : ZeekField.t :=
  {| ZeekField.name := n; ZeekField.type := "string";
     ZeekField.description := ""; ZeekField.optional := false |}.

Definition mkLog (i cat : string) (fs rel : list string) : ZeekLogType.t :=
  {| ZeekLogType.id := i; ZeekLogType.name := i +:+ ".log";
     ZeekLogType.category := cat; ZeekLogType.color := "#3b82f6";
     ZeekLogType.description := "";
     ZeekLogType.fields := map mkField fs;
     ZeekLogType.relatedLogs := rel |}.

(** conn ↔ dns and conn ↔ http, declared in both directions. *)
Definition sampleCatalog : list ZeekLogType.t :=
  [ mkLog "conn" "network" ["ts"; "uid"; "id.orig_h"; "id.resp_h"]
          ["dns"; "http"];
    mkLog "dns" "network" ["ts"; "uid"; "id.orig_h"; "query"] ["conn"];
    mkLog "http" "protocol" ["ts"; "uid"; "id.orig_h"; "host"] ["conn"] ].

Definition sampleActive : gset string := {[ "conn"; "dns"; "http" ]}.

(** A log type that lists an id the catalog does not define. *)
Definition danglingCatalog : list ZeekLogType.t :=
  [ mkLog "conn" "network" ["ts"; "uid"] ["ghost"] ].

(** ** Reading of the statements *)

(** The field-matching predicates of the four conditional pivots, as
    propositions over a log type's field list. *)
Definition HasUidField (l : ZeekLogType.t) : Prop :=
  ∃ f, f ∈ ZeekLogType.fields l ∧ ZeekField.name f = "uid".

Definition HasIpField (l : ZeekLogType.t) : Prop :=
  ∃ f, f ∈ ZeekLogType.fields l ∧
       (is_substring "id.orig_h" (ZeekField.name f) ∨
        is_substring "id.resp_h" (ZeekField.name f)).

Definition HasHashField (l : ZeekLogType.t) : Prop :=
  ∃ f, f ∈ ZeekLogType.fields l ∧
       (is_substring "hash" (ZeekField.name f) ∨
        ZeekField.name f = "md5" ∨ ZeekField.name f = "sha1").

Definition HasHostField (l : ZeekLogType.t) : Prop :=
  ∃ f, f ∈ ZeekLogType.fields l ∧
       (ZeekField.name f = "query" ∨ ZeekField.name f = "host" ∨
        ZeekField.name f = "server_name").

(** The pivot list in terms of the four conjunctions tested by
    [findPivotProperties]. *)
Definition pivotsOf (uid ip hash host : bool) : list string :=
  pushIf host (pushIf hash (pushIf ip (pushIf uid [] "uid") "IP") "hash")
         "hostname" ++ ["ts"].

(** A link whose endpoints are log types of [filteredData] and whose pivot
    list is the one computed from them. *)
Definition LinkFrom (filteredData : list ZeekLogType.t) (e : Link.t) : Prop :=
  ∃ l1 l2,
    findLog filteredData (Link.source e) = Some l1 ∧
    findLog filteredData (Link.target e) = Some l2 ∧
    findPivotProperties (Some l1) (Some l2) = Ok (Link.pivotProperties e) ∧
    Link.connectionCount e = Z.of_nat (length (Link.pivotProperties e)).

(** Number of links joining [a] and [b], in either direction. *)
Definition edgesBetween (a b : string) (links : list Link.t) : nat :=
  length (List.filter (joins a b) links).

(** Every active id listed by an active log type is the id of a catalog
    entry. *)
Definition NoDangling (data : list ZeekLogType.t) (activeNodes : gset string)
  : Prop :=
  ∀ log r, log ∈ data → ZeekLogType.id log ∈ activeNodes →
           r ∈ ZeekLogType.relatedLogs log → r ∈ activeNodes →
           ∃ l, l ∈ data ∧ ZeekLogType.id l = r.

(** A selected id belongs to a category when a catalog entry with that id
    has that category. *)
Definition InCategory (zeekLogs : list ZeekLogType.t) (nodeId categoryId : string)
  : Prop :=
  ∃ log, log ∈ zeekLogs ∧ ZeekLogType.id log = nodeId ∧
         ZeekLogType.category log = categoryId.

(** The two invariants of the loops: links come from [filteredData], and no
    pair is joined twice. *)
Definition LinksInv (fd : list ZeekLogType.t) (links : list Link.t) : Prop :=
  Forall (LinkFrom fd) links ∧ ∀ a b, (edgesBetween a b links ≤ 1)%nat.

(** ** More concrete inputs *)

Definition danglingActive : gset string := {[ "conn"; "ghost" ]}.

Definition sampleLinkConnDns : Link.t :=
  {| Link.source := "conn"; Link.target := "dns"; Link.strength := 1;
     Link.pivotProperties := ["uid"; "IP"; "ts"];
     Link.connectionCount := 3 |}.

Definition sampleLinkConnHttp : Link.t :=
  {| Link.source := "conn"; Link.target := "http"; Link.strength := 1;
     Link.pivotProperties := ["uid"; "IP"; "ts"];
     Link.connectionCount := 3 |}.

(** Two log types that both carry an address field. *)
Definition ipCatalog : list ZeekLogType.t :=
  [ mkLog "a" "network" ["id.orig_h"] ["b"];
    mkLog "b" "network" ["id.resp_h"] [] ].

Definition ipActive : gset string := {[ "a"; "b" ]}.

Definition ipLink : Link.t :=
  {| Link.source := "a"; Link.target := "b"; Link.strength := 1;
     Link.pivotProperties := ["IP"; "ts"];
     Link.connectionCount := 2 |}.

Definition sampleState : AppState :=
  {| activeNodes := sampleActive; selectedNode := Some "dns";
     selectedCategories := {[ "network"; "protocol" ]};
     searchQuery := "" |}.

Definition measured : Dimensions := {| width := 800; height := 600 |}.
Definition unmeasured : Dimensions := {| width := 0; height := 600 |}.

(** ** More of [App]: the selected log type, the category groups *)


Definition setSelectedNode (s : option string) (st : AppState) : AppState :=
  {| activeNodes := activeNodes st;
     selectedNode := s;
     selectedCategories := selectedCategories st;
     searchQuery := searchQuery st |}.

Section AppView.

Variable zeekLogs : list ZeekLogType.t.
Variable toLowerCase : string → string.

(** [selectedNode ? zeekLogs.find(log => log.id === selectedNode) : null]:
    the empty string is falsy, like [null]. *)
Definition selectedLogType (st : AppState) : option ZeekLogType.t :=
  match selectedNode st with
  | Some s => if nonempty s then findLog zeekLogs s else None
  | None => None
  end.

(** The locals of the callback of [categories.map] in the sidebar. *)
Definition categoryLogs (st : AppState) (categoryId : string)
  : list ZeekLogType.t :=
  List.filter (λ log, String.eqb (ZeekLogType.category log) categoryId)
              (filteredLogs zeekLogs toLowerCase st).

Definition activeCategoryLogs (st : AppState) (categoryId : string)
  : list ZeekLogType.t :=
  List.filter (λ log, bool_decide (ZeekLogType.id log ∈ activeNodes st))
              (categoryLogs st categoryId).

Definition allActive (st : AppState) (categoryId : string) : bool :=
  (length (activeCategoryLogs st categoryId) =?
   length (categoryLogs st categoryId))%nat.

Definition someActive (st : AppState) (categoryId : string) : bool :=
  (0 <? length (activeCategoryLogs st categoryId))%nat.

(** A group with no log type renders nothing ([return null]). *)
Definition groupRendered (st : AppState) (categoryId : string) : bool :=
  negb (length (categoryLogs st categoryId) =? 0)%nat.

(** [onClick] of the group's button. *)
Definition clickToggleAll (categoryId : string) (st : AppState) : AppState :=
  toggleAllInCategory zeekLogs categoryId (negb (allActive st categoryId)) st.

End AppView.

(** ** [SearchBar] *)








(** ** The field list of [FieldDetails] *)

Module FieldDetailsPanel.
Section Panel.
Variable toLowerCase : string → string.

Definition keepField (searchTerm : string) (showOptional : bool)
  (field : ZeekField.t) : bool :=
  let matchesSearch :=
    includes (toLowerCase (ZeekField.name field)) (toLowerCase searchTerm) ||
    includes (toLowerCase (ZeekField.description field))
             (toLowerCase searchTerm) in
  let matchesOptional := showOptional || negb (ZeekField.optional field) in
  matchesSearch && matchesOptional.

Definition filteredFields (searchTerm : string) (showOptional : bool)
  (logType : ZeekLogType.t) : list ZeekField.t :=
  List.filter (keepField searchTerm showOptional) (ZeekLogType.fields logType).
End Panel.

(** [logType.fields.filter(f => !f.optional).length] of the footer. *)
Definition requiredCount (logType : ZeekLogType.t) : nat :=
  length (List.filter (λ f, negb (ZeekField.optional f))
                      (ZeekLogType.fields logType)).

(** The footer's related ids: the first three, and the count of the rest. *)
Definition relatedShown (logType : ZeekLogType.t) : list string :=
  take 3 (ZeekLogType.relatedLogs logType).

Definition relatedMore (logType : ZeekLogType.t) : option nat :=
  if (3 <? length (ZeekLogType.relatedLogs logType))%nat
  then Some (length (ZeekLogType.relatedLogs logType) - 3)%nat
  else None.
End FieldDetailsPanel.

(** ** The field list of [LogTypeCard] *)

Module LogTypeCardView.
Definition shownFields (logType : ZeekLogType.t) : list ZeekField.t :=
  take 8 (ZeekLogType.fields logType).

Definition moreFields (logType : ZeekLogType.t) : option nat :=
  if (8 <? length (ZeekLogType.fields logType))%nat
  then Some (length (ZeekLogType.fields logType) - 8)%nat
  else None.
End LogTypeCardView.

(** ** [PivotPanel] *)

Module PivotPanel.
Record PivotPoint : Type := mkPivotPoint {
  field : string;
  description : string;
  targetLogs : list string;
  pivotType : string;
  example : string
}.

Inductive Icon : Type := Link2 | MapPin | Clock | Database.

Definition getPivotIcon (type : string) : Icon :=
  if String.eqb type "uid" then Link2
  else if String.eqb type "ip" then MapPin
  else if String.eqb type "time" then Clock
  else if String.eqb type "hash" then Database
  else Database.

Definition getPivotColor (type : string) : string :=
  if String.eqb type "uid"
  then "text-blue-400 bg-blue-400/10 border-blue-400/20"
  else if String.eqb type "ip"
  then "text-green-400 bg-green-400/10 border-green-400/20"
  else if String.eqb type "time"
  then "text-purple-400 bg-purple-400/10 border-purple-400/20"
  else if String.eqb type "hash"
  then "text-orange-400 bg-orange-400/10 border-orange-400/20"
  else "text-slate-400 bg-slate-400/10 border-slate-400/20".

(** The field predicates of [getPivotPoints]; the hash one also accepts
    "sha256". *)
Definition isHashField (f : ZeekField.t) : bool :=
  includes (ZeekField.name f) "hash" ||
  String.eqb (ZeekField.name f) "md5" ||
  String.eqb (ZeekField.name f) "sha1" ||
  String.eqb (ZeekField.name f) "sha256".

Definition isCertificateField (f : ZeekField.t) : bool :=
  includes (ZeekField.name f) "certificate" ||
  String.eqb (ZeekField.name f) "serial".

Definition isSoftwareField (f : ZeekField.t) : bool :=
  String.eqb (ZeekField.name f) "name" ||
  String.eqb (ZeekField.name f) "version".

Definition uidPivot : PivotPoint :=
  {| field := "uid";
     description := "Connection identifier - links to conn.log and other connection-based logs";
     targetLogs := ["conn"; "dns"; "http"; "ssl"; "ssh"; "ftp"; "smtp";
                    "files"; "pe"; "dhcp"; "ntp"; "irc"; "ldap";
                    "postgresql"; "quic"; "rdp"];
     pivotType := "uid";
     example := "CTo78A11g7CYbbOHvj" |}.

Definition ipPivot : PivotPoint :=
  {| field := "id.orig_h / id.resp_h";
     description := "Source/destination IP addresses - correlate across all network logs";
     targetLogs := ["conn"; "dns"; "http"; "ssl"; "ssh"; "ftp"; "smtp";
                    "dhcp"; "ntp"; "weird"; "notice"];
     pivotType := "ip";
     example := "192.168.1.100" |}.

Definition hashPivot : PivotPoint :=
  {| field := "File Hashes (md5/sha1/sha256)";
     description := "File hashes - correlate file analysis across files.log, pe.log, and x509.log";
     targetLogs := ["files"; "pe"; "x509"; "smb_files"];
     pivotType := "hash";
     example := "d41d8cd98f00b204e9800998ecf8427e" |}.

Definition certificatePivot : PivotPoint :=
  {| field := "Certificate Serial/Fingerprint";
     description := "Certificate identifiers - link SSL/TLS connections to certificate details";
     targetLogs := ["ssl"; "x509"; "known_certs"];
     pivotType := "hash";
     example := "00:a1:2b:3c:4d:5e:6f" |}.

Definition hostnamePivot : PivotPoint :=
  {| field := "Hostname/FQDN";
     description := "Domain names and hostnames - correlate DNS queries with HTTP/SSL traffic";
     targetLogs := ["dns"; "http"; "ssl"; "smtp"; "known_hosts"];
     pivotType := "identifier";
     example := "example.com" |}.

Definition softwarePivot : PivotPoint :=
  {| field := "Software Name/Version";
     description := "Software identification - correlate with connection logs to identify services";
     targetLogs := ["conn"; "http"; "ssl"; "ssh"; "ftp"; "smtp"];
     pivotType := "identifier";
     example := "Apache/2.4.41" |}.

Definition timePivot (allLogTypes : list ZeekLogType.t) : PivotPoint :=
  {| field := "ts (timestamp)";
     description := "Timestamp - temporal correlation across all log types for incident timeline";
     targetLogs := map ZeekLogType.id allLogTypes;
     pivotType := "time";
     example := "1609459200.123456" |}.

Definition pushPivot (c : bool) (pivots : list PivotPoint) (p : PivotPoint)
  : list PivotPoint :=
  if c then pivots ++ [p] else pivots.

Definition getPivotPoints (allLogTypes : list ZeekLogType.t)
  (log : ZeekLogType.t) : list PivotPoint :=
  let fs := ZeekLogType.fields log in
  let pivots : list PivotPoint := [] in
  let pivots := pushPivot (existsb isUidField fs) pivots uidPivot in
  let pivots := pushPivot (existsb isIpField fs) pivots ipPivot in
  let pivots := pushPivot (existsb isHashField fs) pivots hashPivot in
  let pivots :=
    pushPivot (existsb isCertificateField fs) pivots certificatePivot in
  let pivots := pushPivot (existsb isHostField fs) pivots hostnamePivot in
  let pivots :=
    pushPivot (existsb isSoftwareField fs &&
               String.eqb (ZeekLogType.id log) "software")
              pivots softwarePivot in
  pivots ++ [timePivot allLogTypes].

(** [pivot.targetLogs.slice(0, 8).map(...)]: one entry per id, [null] for
    an id the catalog does not have. *)
Definition targetButtons (allLogTypes : list ZeekLogType.t) (pivot : PivotPoint)
  : list (option (string * ZeekLogType.t)) :=
  map (λ targetLogId,
         match findLog allLogTypes targetLogId with
         | Some targetLog => Some (targetLogId, targetLog)
         | None => None
         end)
      (take 8 (targetLogs pivot)).

(** The buttons that are rendered, each with the id its click selects. *)
Definition renderedButtons (allLogTypes : list ZeekLogType.t)
  (pivot : PivotPoint) : list (string * ZeekLogType.t) :=
  omap (λ b, b) (targetButtons allLogTypes pivot).

Definition moreTargets (pivot : PivotPoint) : option nat :=
  if (8 <? length (targetLogs pivot))%nat
  then Some (length (targetLogs pivot) - 8)%nat
  else None.
End PivotPanel.

(** ** Hover highlighting and link labels of [GraphVisualization] *)

(** [source] and [target] of a link: the id it was built with, or the node
    the simulation put in its place. *)
Inductive LinkEnd : Type :=
| EndId (i : string)
| EndNode (n : Node.t).

Record SimLink : Type := mkSimLink {
  simSource : LinkEnd;
  simTarget : LinkEnd
}.

(** [typeof l.source === 'object' ? l.source.id : l.source]. *)
Definition endId (e : LinkEnd) : string :=
  match e with
  | EndId i => i
  | EndNode n => Node.id n
  end.

(** Body of [links.forEach] in the [mouseover] handler of node [d]. *)
Definition addConnected (d : string) (connectedNodes : gset string)
  (link : SimLink) : gset string :=
  match simSource link, simTarget link with
  | EndNode s, EndNode t =>
      let c1 := if String.eqb (Node.id s) d
                then connectedNodes ∪ {[ Node.id t ]} else connectedNodes in
      if String.eqb (Node.id t) d then c1 ∪ {[ Node.id s ]} else c1
  | _, _ => connectedNodes
  end.

Definition connectedNodes (links : list SimLink) (d : string) : gset string :=
  fold_left (addConnected d) links ∅.

(** The test under which a node keeps opacity 1 while [d] is hovered; the
    other nodes get the double nearest to 0.3. *)
Definition nodeEmphasised (links : list SimLink) (d n : string) : bool :=
  String.eqb n d || bool_decide (n ∈ connectedNodes links d).

Definition nodeOpacity (links : list SimLink) (d n : string) : float :=
  if nodeEmphasised links d n then 1%float else 0x1.3333333333333p-2%float.

(** The test under which a link keeps opacity 1 while [d] is hovered. *)
Definition linkEmphasised (d : string) (l : SimLink) : bool :=
  String.eqb (endId (simSource l)) d || String.eqb (endId (simTarget l)) d.

(** [array.join(sep)]. *)
Fixpoint join (sep : string) (l : list string) : string :=
  match l with
  | [] => ""
  | [x] => x
  | x :: l' => x +:+ sep +:+ join sep l'
  end.

(** Text of a link label: [d.pivotProperties.slice(0, 2).join(', ')]. *)
Definition linkLabel (e : Link.t) : string :=
  join ", " (take 2 (Link.pivotProperties e)).

(** ** More readings of the statements *)

(** A link between two different active ids, both ids of log types of
    [filteredData], declared by the one at its source. *)
Definition LinkDeclared (fd : list ZeekLogType.t) (active : gset string)
  (e : Link.t) : Prop :=
  ∃ log, log ∈ fd ∧ Link.source e = ZeekLogType.id log ∧
         Link.target e ∈ ZeekLogType.relatedLogs log ∧
         Link.target e ∈ active ∧
         Link.source e ≠ Link.target e ∧
         Link.strength e = 1%Z.

(** [a] is the id of an active catalog entry that lists [b]. *)
Definition Lists (data : list ZeekLogType.t) (active : gset string)
  (a b : string) : Prop :=
  ∃ log, log ∈ data ∧ ZeekLogType.id log = a ∧ a ∈ active ∧
         b ∈ ZeekLogType.relatedLogs log.

(** The pivot panel of a log type has the pivot point with this key. *)
Definition PanelHas (allLogTypes : list ZeekLogType.t) (log : ZeekLogType.t)
  (key : string) : Prop :=
  ∃ p, p ∈ PivotPanel.getPivotPoints allLogTypes log ∧
       PivotPanel.field p = key.

(** The link has nodes at both ends, [d] at one and [n] at the other. *)
Definition Touches (d n : string) (link : SimLink) : Prop :=
  ∃ s t, simSource link = EndNode s ∧ simTarget link = EndNode t ∧
         ((Node.id s = d ∧ Node.id t = n) ∨ (Node.id t = d ∧ Node.id s = n)).

(** The keys of the pivot points, in the order [getPivotPoints] pushes
    them. *)
Definition pivotKeys : list string :=
  [ "uid"; "id.orig_h / id.resp_h"; "File Hashes (md5/sha1/sha256)";
    "Certificate Serial/Fingerprint"; "Hostname/FQDN";
    "Software Name/Version"; "ts (timestamp)" ].

(** A field list in which a log type of the software catalog has the fields
    of several pivots. *)
Definition softwareLog : ZeekLogType.t :=
  mkLog "software" "content" ["ts"; "host"; "name"; "version"; "sha256"] [].

(** * Properties *)

(** ** The [result] monad and [foldM] *)

Lemma bind_Ok {A B : Type} (r : result A) (k : A → result B) (b : B) :
  r ≫= k = Ok b → ∃ a, r = Ok a ∧ k a = Ok b.
Proof. destruct r as [a|e]; [eauto | discriminate]. Qed.

Lemma foldM_cons {A S : Type} (body : S → A → result S) a l s :
  foldM body (a :: l) s = body s a ≫= foldM body l.
Proof. reflexivity. Qed.

(** A property kept by every step that returns is kept by the loop. *)
Lemma foldM_invariant {A S : Type} (I : S → Prop) (body : S → A → result S)
  (l : list A) :
  (∀ s a s', a ∈ l → I s → body s a = Ok s' → I s') →
  ∀ s s', I s → foldM body l s = Ok s' → I s'.
Proof.
  induction l as [|a l IH]; intros Hstep s s' Hs Hrun.
  - injection Hrun as <-. exact Hs.
  - rewrite foldM_cons in Hrun.
    apply bind_Ok in Hrun as (s1 & H1 & Hrest).
    apply (IH (λ s0 a0 s0' Ha, Hstep s0 a0 s0' (list_elem_of_further _ _ _ Ha))
              s1 s'); [|exact Hrest].
    apply (Hstep s a s1); [left | exact Hs | exact H1].
Qed.

(** A loop whose steps all return, returns. *)
Lemma foldM_total {A S : Type} (body : S → A → result S) (l : list A) :
  (∀ s a, a ∈ l → ∃ s', body s a = Ok s') →
  ∀ s, ∃ s', foldM body l s = Ok s'.
Proof.
  induction l as [|a l IH]; intros Hstep s.
  - by exists s.
  - destruct (Hstep s a) as [s1 H1]; [left|].
    destruct (IH (λ s0 a0 Ha, Hstep s0 a0 (list_elem_of_further _ _ _ Ha)) s1)
      as [s' Hs'].
    exists s'. rewrite foldM_cons, H1. exact Hs'.
Qed.

(** When every step moves the state up a preorder, the loop does, and each
    element of the list is processed at some point in between. *)
Lemma foldM_visits {A S : Type} (R : S → S → Prop) `{!PreOrder R}
  (body : S → A → result S) (l : list A) :
  (∀ s a s', body s a = Ok s' → R s s') →
  ∀ s s' a, a ∈ l → foldM body l s = Ok s' →
  ∃ s1 s2, R s s1 ∧ body s1 a = Ok s2 ∧ R s2 s'.
Proof.
  intros Hstep. induction l as [|x l IH]; intros s s' a Ha Hrun.
  - by apply elem_of_nil in Ha.
  - rewrite foldM_cons in Hrun.
    apply bind_Ok in Hrun as (sx & Hx & Hrest).
    assert (Hup : R sx s').
    { clear -Hstep Hrest PreOrder0.
      revert sx Hrest. induction l as [|y l IHl]; intros sx Hrest.
      - injection Hrest as <-. reflexivity.
      - rewrite foldM_cons in Hrest.
        apply bind_Ok in Hrest as (sy & Hy & Hrest).
        etrans; [by eapply Hstep | by apply IHl]. }
    apply elem_of_cons in Ha as [->|Ha].
    + exists s, sx. split; [reflexivity | done].
    + destruct (IH sx s' a Ha Hrest) as (s1 & s2 & H1 & H2 & H3).
      exists s1, s2. split; [|done]. etrans; [by eapply Hstep | done].
Qed.

Lemma foldM_monotone {A S : Type} (R : S → S → Prop) `{!PreOrder R}
  (body : S → A → result S) (l : list A) :
  (∀ s a s', body s a = Ok s' → R s s') →
  ∀ s s', foldM body l s = Ok s' → R s s'.
Proof.
  intros Hstep s s'. apply (foldM_invariant (R s)); [|reflexivity].
  intros s0 a s0' _ H0 Hb. etrans; [exact H0 | by eapply Hstep].
Qed.

(** ** Substrings *)

Lemma prefix_spec (sub s : string) :
  String.prefix sub s = true ↔ ∃ post, s = sub +:+ post.
Proof.
  revert s. induction sub as [|c sub IH]; intros s.
  - split; [intros _; by exists s | intros _; by destruct s].
  - destruct s as [|d s]; simpl.
    + split; [discriminate | intros [post H]; discriminate].
    + destruct (ascii_dec c d) as [->|Hne].
      * rewrite IH. split; intros [post H]; exists post.
        -- by rewrite H.
        -- by injection H.
      * split; [discriminate | intros [post H]; by injection H].
Qed.

Lemma includes_nil (sub : string) :
  includes "" sub = String.prefix sub "" || false.
Proof. reflexivity. Qed.

Lemma includes_cons (c : ascii) (s sub : string) :
  includes (String c s) sub = String.prefix sub (String c s) || includes s sub.
Proof. reflexivity. Qed.

Lemma includes_spec (s sub : string) :
  includes s sub = true ↔ is_substring sub s.
Proof.
  split.
  - induction s as [|c s IH]; intros H.
    + rewrite includes_nil in H. apply orb_true_iff in H as [H|H]; [|done].
      apply prefix_spec in H as [post H]. by exists "", post.
    + rewrite includes_cons in H. apply orb_true_iff in H as [H|H].
      * apply prefix_spec in H as [post H]. by exists "", post.
      * destruct (IH H) as (pre & post & ->). by exists (String c pre), post.
  - intros (pre & post & ->). induction pre as [|c pre IH].
    + assert (H : String.prefix sub (sub +:+ post) = true)
        by (apply prefix_spec; by exists post).
      change ("" +:+ sub +:+ post) with (sub +:+ post).
      destruct (sub +:+ post) as [|d r].
      * rewrite includes_nil, H. reflexivity.
      * rewrite includes_cons, H. reflexivity.
    + change (String c pre +:+ sub +:+ post)
        with (String c (pre +:+ sub +:+ post)).
      rewrite includes_cons, IH. apply orb_true_r.
Qed.

Lemma nonempty_spec (s : string) : nonempty s = true ↔ s ≠ "".
Proof.
  unfold nonempty. destruct (String.eqb_spec s ""); simpl; split; try done.
Qed.

Lemma existsb_elem_of {A : Type} (p : A → bool) (l : list A) :
  existsb p l = true ↔ ∃ x, x ∈ l ∧ p x = true.
Proof.
  rewrite existsb_exists. split; intros (x & Hx & Hp); exists x;
    (split; [by apply list_elem_of_In | done]).
Qed.

(** ** Pivot detection *)

Lemma isUidField_spec l : existsb isUidField (ZeekLogType.fields l) = true ↔ HasUidField l.
Proof.
  rewrite existsb_elem_of. unfold HasUidField, isUidField.
  by setoid_rewrite String.eqb_eq.
Qed.

Lemma isIpField_spec l : existsb isIpField (ZeekLogType.fields l) = true ↔ HasIpField l.
Proof.
  rewrite existsb_elem_of. unfold HasIpField, isIpField.
  setoid_rewrite orb_true_iff. by setoid_rewrite includes_spec.
Qed.

Lemma isHashField_spec l :
  existsb isHashField (ZeekLogType.fields l) = true ↔ HasHashField l.
Proof.
  rewrite existsb_elem_of. unfold HasHashField, isHashField.
  repeat setoid_rewrite orb_true_iff. setoid_rewrite includes_spec.
  setoid_rewrite String.eqb_eq. split; intros (f & Hf & H); exists f; tauto.
Qed.

Lemma isHostField_spec l :
  existsb isHostField (ZeekLogType.fields l) = true ↔ HasHostField l.
Proof.
  rewrite existsb_elem_of. unfold HasHostField, isHostField.
  repeat setoid_rewrite orb_true_iff. setoid_rewrite String.eqb_eq.
  split; intros (f & Hf & H); exists f; tauto.
Qed.

(** On two log types the function returns, and the list is [pivotsOf] of
    the four conjunctions. *)
Lemma findPivotProperties_Some (l1 l2 : ZeekLogType.t) :
  findPivotProperties (Some l1) (Some l2) =
  Ok (pivotsOf
        (existsb isUidField (ZeekLogType.fields l1) &&
         existsb isUidField (ZeekLogType.fields l2))
        (existsb isIpField (ZeekLogType.fields l1) &&
         existsb isIpField (ZeekLogType.fields l2))
        (existsb isHashField (ZeekLogType.fields l1) &&
         existsb isHashField (ZeekLogType.fields l2))
        (existsb isHostField (ZeekLogType.fields l1) &&
         existsb isHostField (ZeekLogType.fields l2))).
Proof.
  unfold findPivotProperties, fieldsSome. simpl.
  destruct (existsb isUidField (ZeekLogType.fields l1)); reflexivity.
Qed.

(** It returns only when both arguments are defined. *)
Lemma findPivotProperties_Ok_inv o1 o2 pivots :
  findPivotProperties o1 o2 = Ok pivots →
  ∃ l1 l2, o1 = Some l1 ∧ o2 = Some l2.
Proof.
  destruct o1 as [l1|], o2 as [l2|]; intros H; eauto; exfalso.
  - unfold findPivotProperties, fieldsSome in H. simpl in H.
    destruct (existsb isUidField (ZeekLogType.fields l1)); discriminate.
  - discriminate.
  - discriminate.
Qed.

Lemma findPivotProperties_undefined_target l1 :
  ∃ e, findPivotProperties (Some l1) None = Throw e.
Proof.
  unfold findPivotProperties, fieldsSome. simpl.
  destruct (existsb isUidField (ZeekLogType.fields l1)); simpl; eauto.
Qed.

Ltac invert_elem_of :=
  repeat match goal with
    | H : _ ∈ [] |- _ => by apply elem_of_nil in H
    | H : _ ∈ _ :: _ |- _ => apply elem_of_cons in H as [H|H]; [discriminate|]
    end.

Ltac tag_cases :=
  repeat split; intros; try intro;
  first [ reflexivity | discriminate | by repeat constructor | invert_elem_of ].

Lemma pivotsOf_tags (uid ip hash host : bool) :
  "ts" ∈ pivotsOf uid ip hash host ∧
  ("uid" ∈ pivotsOf uid ip hash host ↔ uid = true) ∧
  ("IP" ∈ pivotsOf uid ip hash host ↔ ip = true) ∧
  ("hash" ∈ pivotsOf uid ip hash host ↔ hash = true) ∧
  ("hostname" ∈ pivotsOf uid ip hash host ↔ host = true) ∧
  "ip" ∉ pivotsOf uid ip hash host.
Proof.
  destruct uid, ip, hash, host; vm_compute pivotsOf; tag_cases.
Qed.

(** ** Link construction *)

Lemma joins_true_iff a b e :
  joins a b e = true ↔
  (Link.source e = a ∧ Link.target e = b) ∨
  (Link.source e = b ∧ Link.target e = a).
Proof.
  unfold joins. rewrite orb_true_iff, !andb_true_iff, !String.eqb_eq. tauto.
Qed.

(** Two pairs joined by one link are joined by the same links. *)
Lemma joins_same_pair a b c d e :
  joins a b e = true → joins c d e = true → ∀ x, joins a b x = joins c d x.
Proof.
  rewrite !joins_true_iff. intros Hab Hcd x.
  assert (Heq : (a = c ∧ b = d) ∨ (a = d ∧ b = c)).
  { destruct Hab as [[<- <-]|[<- <-]], Hcd as [[<- <-]|[Hs Ht]];
      try tauto; rewrite <-?Hs, <-?Ht; tauto. }
  destruct Heq as [[-> ->]|[-> ->]]; [reflexivity|].
  unfold joins. apply orb_comm.
Qed.

Lemma find_None_filter {A : Type} (p : A → bool) (l : list A) :
  List.find p l = None → List.filter p l = [].
Proof.
  induction l as [|x l IH]; simpl; [done|].
  destruct (p x); [discriminate | exact IH].
Qed.

Lemma find_elem_of {A : Type} (p : A → bool) (l : list A) x :
  x ∈ l → p x = true → ∃ y, List.find p l = Some y.
Proof.
  intros Hx Hp. destruct (List.find p l) as [y|] eqn:Hf; [eauto|].
  apply list_elem_of_In in Hx.
  pose proof (List.find_none p l Hf x Hx) as Hn. congruence.
Qed.

Lemma find_Some_elem_of {A : Type} (p : A → bool) (l : list A) y :
  List.find p l = Some y → y ∈ l ∧ p y = true.
Proof.
  intros H. apply List.find_some in H as [Hy Hp].
  split; [by apply list_elem_of_In | done].
Qed.

Lemma edgesBetween_app a b l1 l2 :
  edgesBetween a b (l1 ++ l2) = (edgesBetween a b l1 + edgesBetween a b l2)%nat.
Proof. unfold edgesBetween. by rewrite List.filter_app, List.length_app. Qed.

Lemma edgesBetween_pos a b links e :
  e ∈ links → joins a b e = true → (1 ≤ edgesBetween a b links)%nat.
Proof.
  intros He Hj. unfold edgesBetween.
  assert (Hin : In e (List.filter (joins a b) links)).
  { apply List.filter_In. split; [by apply list_elem_of_In | done]. }
  destruct (List.filter (joins a b) links); [destruct Hin | simpl; lia].
Qed.

(** What one step of the inner loop does when it returns: nothing, or one
    new link for a pair that had none. *)
Lemma addLink_Ok_inv fd active log links r links' :
  addLink fd active log links r = Ok links' →
  links' = links ∨
  ∃ e, links' = links ++ [e] ∧
       Link.source e = ZeekLogType.id log ∧ Link.target e = r ∧
       edgesBetween (ZeekLogType.id log) r links = 0%nat ∧
       LinkFrom fd e.
Proof.
  unfold addLink. intros H.
  destruct (bool_decide (r ∈ active) &&
            negb (String.eqb (ZeekLogType.id log) r));
    [|injection H as <-; by left].
  destruct (List.find (joins (ZeekLogType.id log) r) links) eqn:Hfind;
    [injection H as <-; by left|].
  apply bind_Ok in H as (pivots & Hp & H). injection H as <-.
  destruct (findPivotProperties_Ok_inv _ _ _ Hp) as (l1 & l2 & H1 & H2).
  right. eexists. split; [reflexivity|]. simpl.
  repeat split.
  - unfold edgesBetween. by rewrite (find_None_filter _ _ Hfind).
  - exists l1, l2. simpl. rewrite <-H1, <-H2. done.
Qed.

Lemma addLink_prefix fd active log links r links' :
  addLink fd active log links r = Ok links' → links `prefix_of` links'.
Proof.
  intros H. apply addLink_Ok_inv in H as [->|(e & -> & _)];
    [reflexivity | by apply prefix_app_r].
Qed.

(** After the step for an active id other than the log type's own, some
    link joins the two. *)
Lemma addLink_joined fd active log links r links' :
  r ∈ active → ZeekLogType.id log ≠ r →
  addLink fd active log links r = Ok links' →
  ∃ e, e ∈ links' ∧ joins (ZeekLogType.id log) r e = true.
Proof.
  intros Hr Hne H. pose proof H as H'. unfold addLink in H'.
  rewrite (bool_decide_eq_true_2 _ Hr) in H'.
  destruct (String.eqb_spec (ZeekLogType.id log) r) as [|_]; [done|].
  simpl in H'.
  destruct (List.find (joins (ZeekLogType.id log) r) links) as [e0|] eqn:Hfind.
  - injection H' as <-. exists e0. by apply find_Some_elem_of.
  - apply addLink_Ok_inv in H as [->|(e & -> & Hs & Ht & _)].
    + apply bind_Ok in H' as (p & _ & H'). injection H' as H'.
      exfalso. clear -H'. apply (f_equal length) in H'.
      rewrite List.length_app in H'. simpl in H'. lia.
    + exists e. split; [apply elem_of_app; right; left|].
      apply joins_true_iff. by left.
Qed.

Lemma addLinksOf_prefix fd active links log links' :
  addLinksOf fd active links log = Ok links' → links `prefix_of` links'.
Proof.
  unfold addLinksOf. apply (foldM_monotone prefix).
  intros s a s'. apply addLink_prefix.
Qed.

Lemma addLink_inv fd active log links r links' :
  LinksInv fd links → addLink fd active log links r = Ok links' →
  LinksInv fd links'.
Proof.
  intros [HF HD] H.
  apply addLink_Ok_inv in H as [->|(e & -> & Hs & Ht & H0 & He)]; [done|].
  split.
  - apply Forall_app. split; [done | by constructor].
  - intros a b. rewrite edgesBetween_app.
    unfold edgesBetween at 2. simpl.
    destruct (joins a b e) eqn:Hj; simpl; [|specialize (HD a b); lia].
    assert (Hj0 : joins (ZeekLogType.id log) r e = true)
      by (apply joins_true_iff; by left).
    unfold edgesBetween.
    rewrite (List.filter_ext _ _ (joins_same_pair _ _ _ _ _ Hj Hj0)).
    unfold edgesBetween in H0. rewrite H0. done.
Qed.

Lemma makeLinks_inv fd0 fd active links :
  foldM (addLinksOf fd active) fd0 [] = Ok links → LinksInv fd links.
Proof.
  apply (foldM_invariant (LinksInv fd)).
  - intros s log s' _ Hs. unfold addLinksOf.
    apply (foldM_invariant (LinksInv fd)); [|done].
    intros s0 r s0' _. apply addLink_inv.
  - split; [constructor | intros a b; unfold edgesBetween; simpl; lia].
Qed.

(** Every active id that a processed log type lists, other than its own,
    ends up joined to it. *)
Lemma makeLinks_joined fd0 fd active links log r :
  foldM (addLinksOf fd active) fd0 [] = Ok links →
  log ∈ fd0 → r ∈ ZeekLogType.relatedLogs log → r ∈ active →
  ZeekLogType.id log ≠ r →
  ∃ e, e ∈ links ∧ joins (ZeekLogType.id log) r e = true.
Proof.
  intros Hrun Hlog Hr Hact Hne.
  destruct (foldM_visits prefix (addLinksOf fd active) fd0
              (addLinksOf_prefix fd active) [] links log Hlog Hrun)
    as (s1 & s2 & _ & Hstep & Hup).
  unfold addLinksOf in Hstep.
  destruct (foldM_visits prefix (addLink fd active log)
              (ZeekLogType.relatedLogs log)
              (addLink_prefix fd active log) s1 s2 r Hr Hstep)
    as (t1 & t2 & _ & Hadd & Hup').
  destruct (addLink_joined _ _ _ _ _ _ Hact Hne Hadd) as (e & He & Hj).
  exists e. split; [|done].
  eapply elem_of_prefix; [|exact Hup].
  eapply elem_of_prefix; [|exact Hup']. done.
Qed.

Lemma filterActive_elem_of data active log :
  log ∈ filterActive data active ↔ log ∈ data ∧ ZeekLogType.id log ∈ active.
Proof. unfold filterActive. rewrite list_elem_of_filter. tauto. Qed.

Lemma findLog_Some fd i l :
  findLog fd i = Some l → l ∈ fd ∧ ZeekLogType.id l = i.
Proof.
  intros H. apply find_Some_elem_of in H as [H1 H2].
  split; [done | by apply String.eqb_eq].
Qed.

Lemma findLog_elem_of fd l :
  l ∈ fd → ∃ l', findLog fd (ZeekLogType.id l) = Some l'.
Proof. intros H. eapply find_elem_of; [done | apply String.eqb_refl]. Qed.

Lemma resolver_Ok_inv data active nodes links :
  resolver data active = Ok (nodes, links) →
  nodes = makeNodes (filterActive data active) active ∧
  makeLinks (filterActive data active) active = Ok links.
Proof.
  unfold resolver. intros H. apply bind_Ok in H as (l & Hl & H).
  injection H as <- <-. done.
Qed.

(** The resolver returns exactly on the catalogs and active sets without a
    dangling active reference. *)
Lemma resolver_Ok_iff data active :
  (∃ nodes links, resolver data active = Ok (nodes, links)) ↔
  NoDangling data active.
Proof.
  split.
  - intros (nodes & links & H) log r Hlog Hid Hr Hact.
    destruct (decide (ZeekLogType.id log = r)) as [<-|Hne]; [eauto|].
    apply resolver_Ok_inv in H as [_ H].
    pose proof (makeLinks_inv _ _ _ _ H) as [HF _].
    destruct (makeLinks_joined _ _ _ _ log r H) as (e & He & Hj); try done.
    { by apply filterActive_elem_of. }
    rewrite Forall_forall in HF.
    destruct (HF e He) as (l1 & l2 & H1 & H2 & _).
    apply findLog_Some in H1 as [H1 H1'], H2 as [H2 H2'].
    apply filterActive_elem_of in H1 as [H1 _], H2 as [H2 _].
    apply joins_true_iff in Hj as [[_ Ht]|[Hs _]].
    + exists l2. split; [done | congruence].
    + exists l1. split; [done | congruence].
  - intros Hnd. unfold resolver, makeLinks.
    destruct (foldM_total (addLinksOf (filterActive data active) active)
                (filterActive data active)) with (s := @nil Link.t)
      as [links Hlinks].
    2:{ rewrite Hlinks. simpl. eauto. }
    intros s log Hlog. unfold addLinksOf. apply foldM_total.
    intros s0 r Hr. unfold addLink.
    destruct (bool_decide (r ∈ active)) eqn:Hact; simpl; [|eauto].
    apply bool_decide_eq_true_1 in Hact.
    destruct (negb _); [|eauto].
    destruct (List.find _ s0); [eauto|].
    destruct (findLog_elem_of _ _ Hlog) as [l1 ->].
    apply filterActive_elem_of in Hlog as [Hlog Hid].
    destruct (Hnd log r Hlog Hid Hr Hact) as (l & Hl & <-).
    destruct (findLog_elem_of (filterActive data active) l) as [l2 ->].
    { by apply filterActive_elem_of. }
    rewrite findPivotProperties_Some. simpl. eauto.
Qed.

(** ** Selection state *)

Lemma isSelected_spec selected nodeId :
  isSelected selected nodeId = true ↔ selected = Some nodeId.
Proof.
  destruct selected as [s|]; simpl; [|done].
  rewrite String.eqb_eq. split; congruence.
Qed.

(** The loop of "disable all": the listed ids leave the set, and the
    selection is dropped when one of them is the selected id. *)
Lemma disable_fold selected logs (newSet : gset string) pending :
  fold_left (toggleOne false selected) logs (newSet, pending) =
  (newSet ∖ list_to_set (ZeekLogType.id <$> logs),
   if existsb (λ log, isSelected selected (ZeekLogType.id log)) logs
   then None else pending).
Proof.
  revert newSet pending. induction logs as [|log logs IH]; intros newSet pending.
  - simpl. by rewrite difference_empty_L.
  - cbn [fold_left]. unfold toggleOne at 2. cbn [fst snd]. rewrite IH.
    simpl. rewrite difference_difference_l_L.
    destruct (isSelected selected (ZeekLogType.id log)); simpl; [|done].
    by destruct (existsb _ logs).
Qed.

Lemma existsb_isSelected_None logs :
  existsb (λ log, isSelected None (ZeekLogType.id log)) logs = false.
Proof. by induction logs. Qed.

Lemma toggleAllInCategory_disable zeekLogs categoryId st :
  toggleAllInCategory zeekLogs categoryId false st =
  let categoryLogs :=
    List.filter (λ log, String.eqb (ZeekLogType.category log) categoryId)
                zeekLogs in
  {| activeNodes :=
       activeNodes st ∖ list_to_set (ZeekLogType.id <$> categoryLogs);
     selectedNode :=
       if existsb (λ log, isSelected (selectedNode st) (ZeekLogType.id log))
                  categoryLogs
       then None else selectedNode st;
     selectedCategories := selectedCategories st;
     searchQuery := searchQuery st |}.
Proof. unfold toggleAllInCategory. by rewrite disable_fold. Qed.

(** ** Search filter *)

Lemma matchesSearch_spec toLowerCase query (log : ZeekLogType.t) :
  matchesSearch toLowerCase query log = true ↔
  is_substring (toLowerCase query) (toLowerCase (ZeekLogType.name log)) ∨
  is_substring (toLowerCase query)
               (toLowerCase (ZeekLogType.description log)) ∨
  ∃ field, field ∈ ZeekLogType.fields log ∧
    (is_substring (toLowerCase query) (toLowerCase (ZeekField.name field)) ∨
     is_substring (toLowerCase query)
                  (toLowerCase (ZeekField.description field))).
Proof.
  unfold matchesSearch.
  rewrite <-!includes_spec.
  setoid_rewrite <-includes_spec.
  setoid_rewrite <-orb_true_iff. rewrite <-existsb_elem_of.
  destruct (includes (toLowerCase (ZeekLogType.name log)) _),
           (includes (toLowerCase (ZeekLogType.description log)) _),
           (existsb _ _); simpl; intuition discriminate.
Qed.

(** ** Field type styling *)

Lemma getProperty_own own key s :
  own !! key = Some s → getProperty own key = VString s.
Proof. unfold getProperty. by intros ->. Qed.

Lemma getProperty_absent own key :
  own !! key = None → key ∉ objectPrototypeKeys →
  getProperty own key = VUndefined.
Proof.
  unfold getProperty. intros -> Hk.
  destruct (existsb (String.eqb key) objectPrototypeKeys) eqn:He; [|done].
  apply existsb_elem_of in He as (k & Hin & Heq).
  apply String.eqb_eq in Heq as <-. done.
Qed.

Lemma getProperty_inherited own key :
  own !! key = None → key ∈ objectPrototypeKeys →
  getProperty own key = VInherited key.
Proof.
  unfold getProperty. intros -> Hk.
  destruct (existsb (String.eqb key) objectPrototypeKeys) eqn:He; [done|].
  assert (existsb (String.eqb key) objectPrototypeKeys = true); [|congruence].
  apply existsb_elem_of. exists key. split; [done | apply String.eqb_refl].
Qed.

Lemma colors_unknown (l : list (string * string)) type :
  type ∉ l.*1 → (list_to_map l : gmap string string) !! type = None.
Proof. apply not_elem_of_list_to_map_1. Qed.

(** Outside the enumeration and outside the inherited names, both helpers
    give their default style. *)
Lemma getTypeColor_default type :
  type ∉ knownTypes → type ∉ objectPrototypeKeys →
  FieldDetails.getTypeColor type = VString FieldDetails.defaultStyle ∧
  LogTypeCard.getTypeColor type = VString LogTypeCard.defaultStyle.
Proof.
  intros Hk Hp. unfold FieldDetails.getTypeColor, LogTypeCard.getTypeColor.
  rewrite !getProperty_absent; [done | | done | | done];
    by apply colors_unknown.
Qed.

(** ** Nodes *)

Lemma filterActive_empty data : filterActive data ∅ = [].
Proof.
  unfold filterActive. induction data as [|log data IH]; [done|].
  rewrite filter_cons. destruct (decide _) as [H|_]; [|exact IH].
  by apply not_elem_of_empty in H.
Qed.

Lemma resolver_dangling_throws data active log r :
  log ∈ data → ZeekLogType.id log ∈ active →
  r ∈ ZeekLogType.relatedLogs log → r ∈ active →
  (∀ l, l ∈ data → ZeekLogType.id l ≠ r) →
  ∃ e, resolver data active = Throw e.
Proof.
  intros Hlog Hid Hr Hact Hghost.
  destruct (resolver data active) as [[nodes links]|e] eqn:Hres; [|eauto].
  exfalso.
  assert (Hnd : NoDangling data active) by (apply resolver_Ok_iff; eauto).
  destruct (Hnd log r Hlog Hid Hr Hact) as (l & Hl & Hlr).
  by apply (Hghost l).
Qed.

(** Each type of the enumeration has a style of its own in both helpers. *)
Lemma getTypeColor_known type :
  type ∈ knownTypes →
  (∃ s, FieldDetails.getTypeColor type = VString s ∧
        s ≠ FieldDetails.defaultStyle) ∧
  (∃ s, LogTypeCard.getTypeColor type = VString s ∧
        s ≠ LogTypeCard.defaultStyle).
Proof.
  intros H. unfold knownTypes in H.
  repeat (apply elem_of_cons in H as [->|H];
          [split; eexists; (split; [by vm_compute | discriminate])|]).
  by apply elem_of_nil in H.
Qed.

(** ** The definitions on the sample catalog *)

(** Three active log types with conn ↔ dns and conn ↔ http: three nodes of
    radius 25, 20 and 20, and two links. *)
Example resolver_sample :
  resolver sampleCatalog sampleActive =
  Ok ([ {| Node.id := "conn"; Node.name := "conn.log";
           Node.category := "network"; Node.color := "#3b82f6";
           Node.radius := 25; Node.connections := 2 |};
        {| Node.id := "dns"; Node.name := "dns.log";
           Node.category := "network"; Node.color := "#3b82f6";
           Node.radius := 20; Node.connections := 1 |};
        {| Node.id := "http"; Node.name := "http.log";
           Node.category := "protocol"; Node.color := "#3b82f6";
           Node.radius := 20; Node.connections := 1 |} ],
      [ sampleLinkConnDns; sampleLinkConnHttp ]).
Proof. by vm_compute. Qed.

(** A listed id that is neither active nor in the catalog is passed over. *)
Example resolver_inactive_dangling :
  resolver danglingCatalog {[ "conn" ]} =
  Ok ([ {| Node.id := "conn"; Node.name := "conn.log";
           Node.category := "network"; Node.color := "#3b82f6";
           Node.radius := 20; Node.connections := 0 |} ], []).
Proof. by vm_compute. Qed.

Example graphEffect_sample :
  startsSimulation (graphEffect true measured sampleCatalog sampleActive)
    = true.
Proof. by vm_compute. Qed.

(** The query is lower-cased before it is searched for. *)
Example filteredLogs_sample :
  ZeekLogType.id <$>
    filteredLogs sampleCatalog asciiToLowerCase
      {| activeNodes := sampleActive; selectedNode := None;
         selectedCategories := {[ "network" ]}; searchQuery := "QUERY" |}
  = ["dns"].
Proof. by vm_compute. Qed.

Example toggleAllInCategory_sample :
  elements (activeNodes
              (toggleAllInCategory sampleCatalog "network" false sampleState))
  = ["http"].
Proof. by vm_compute. Qed.

(** * The claims *)

(** C1 (the code departs from the claim). The claim: a [relatedLogs] entry
    whose id is missing from the catalog is skipped silently and the
    resolver never fails, also when that id is in the active set. On the
    catalog with the single log type "conn" listing "ghost", and the
    active set {conn, ghost}, the id "ghost" names no catalog entry, yet
    the resolver raises [TypeError] while reading [fields] of the
    undefined target, and so does the effect that calls it. *)
Theorem C1_dangling_active_reference_throws :
  findLog danglingCatalog "ghost" = None ∧
  "ghost" ∈ danglingActive ∧
  resolver danglingCatalog danglingActive =
    Throw (TypeError "Cannot read properties of undefined (reading 'fields')") ∧
  graphEffect true measured danglingCatalog danglingActive =
    Throw (TypeError "Cannot read properties of undefined (reading 'fields')").
Proof.
  split; [reflexivity|]. split; [by vm_compute|].
  split; by vm_compute.
Qed.

(** C2, counterexample. Both endpoints of the only edge of [ipCatalog]
    have a field whose name contains "id.orig_h" or "id.resp_h", and the
    tag "ip" is not among the edge's pivot properties: the code spells the
    tag "IP". *)
Lemma C2_ip_tag_counterexample :
  ∃ nodes e l1 l2,
    resolver ipCatalog ipActive = Ok (nodes, [e]) ∧
    findLog (filterActive ipCatalog ipActive) (Link.source e) = Some l1 ∧
    findLog (filterActive ipCatalog ipActive) (Link.target e) = Some l2 ∧
    (HasIpField l1 ∧ HasIpField l2) ∧
    "ip" ∉ Link.pivotProperties e.
Proof.
  eexists _, ipLink, _, _.
  split; [by vm_compute|]. split; [by vm_compute|]. split; [by vm_compute|].
  split; [split|].
  - eexists. split; [left|]. left. by exists "", "".
  - eexists. split; [left|]. right. by exists "", "".
  - intros H. simpl in H. invert_elem_of.
Qed.

(** C2, as amended. For every edge the resolver returns, both endpoints
    are log types of the filtered catalog, found by id; "ts" is among the
    edge's pivot properties; and each of the tags "uid", "IP", "hash" and
    "hostname" is among them exactly when both endpoints satisfy the
    tag's field predicate. *)
Theorem C2_pivot_tags data active nodes links e :
  resolver data active = Ok (nodes, links) → e ∈ links →
  ∃ l1 l2,
    findLog (filterActive data active) (Link.source e) = Some l1 ∧
    findLog (filterActive data active) (Link.target e) = Some l2 ∧
    "ts" ∈ Link.pivotProperties e ∧
    ("uid" ∈ Link.pivotProperties e ↔ HasUidField l1 ∧ HasUidField l2) ∧
    ("IP" ∈ Link.pivotProperties e ↔ HasIpField l1 ∧ HasIpField l2) ∧
    ("hash" ∈ Link.pivotProperties e ↔ HasHashField l1 ∧ HasHashField l2) ∧
    ("hostname" ∈ Link.pivotProperties e ↔ HasHostField l1 ∧ HasHostField l2).
Proof.
  intros Hres He.
  apply resolver_Ok_inv in Hres as [_ Hlinks].
  destruct (makeLinks_inv _ _ _ _ Hlinks) as [HF _].
  rewrite Forall_forall in HF.
  destruct (HF e He) as (l1 & l2 & H1 & H2 & Hp & _).
  exists l1, l2. split; [done|]. split; [done|].
  rewrite findPivotProperties_Some in Hp. injection Hp as <-.
  rewrite <-!isUidField_spec, <-!isIpField_spec, <-!isHashField_spec,
    <-!isHostField_spec, <-!andb_true_iff.
  pose proof (pivotsOf_tags
    (existsb isUidField (ZeekLogType.fields l1) &&
     existsb isUidField (ZeekLogType.fields l2))
    (existsb isIpField (ZeekLogType.fields l1) &&
     existsb isIpField (ZeekLogType.fields l2))
    (existsb isHashField (ZeekLogType.fields l1) &&
     existsb isHashField (ZeekLogType.fields l2))
    (existsb isHostField (ZeekLogType.fields l1) &&
     existsb isHostField (ZeekLogType.fields l2))) as (Hts & Hu & Hi & Hh & Ho & _).
  done.
Qed.

Lemma C2_pivot_tags_witness :
  ∃ l1 l2,
    findLog (filterActive sampleCatalog sampleActive) "conn" = Some l1 ∧
    findLog (filterActive sampleCatalog sampleActive) "dns" = Some l2 ∧
    "ts" ∈ ["uid"; "IP"; "ts"] ∧
    ("uid" ∈ ["uid"; "IP"; "ts"] ↔ HasUidField l1 ∧ HasUidField l2) ∧
    ("IP" ∈ ["uid"; "IP"; "ts"] ↔ HasIpField l1 ∧ HasIpField l2) ∧
    ("hash" ∈ ["uid"; "IP"; "ts"] ↔ HasHashField l1 ∧ HasHashField l2) ∧
    ("hostname" ∈ ["uid"; "IP"; "ts"] ↔ HasHostField l1 ∧ HasHostField l2).
Proof.
  apply (C2_pivot_tags sampleCatalog sampleActive
           (makeNodes (filterActive sampleCatalog sampleActive) sampleActive)
           [sampleLinkConnDns; sampleLinkConnHttp] sampleLinkConnDns).
  - vm_compute. reflexivity.
  - left.
Defined.

(** C3. The node list is the filtered catalog mapped position by position:
    each node carries the id of its log type, its connection count [k] is
    the number of [relatedLogs] entries of that log type that are in the
    active set, and its radius is [max 20 (15 + 5 * k)]; the formula gives
    20, 20, 25 and 40 for k = 0, 1, 2 and 5. *)
Theorem C3_radius_formula data active :
  Forall2
    (λ log n,
       let k := Z.of_nat (length (filter (λ relatedId, relatedId ∈ active)
                                         (ZeekLogType.relatedLogs log))) in
       Node.id n = ZeekLogType.id log ∧
       Node.connections n = k ∧
       Node.radius n = Z.max 20 (15 + 5 * k))
    (filterActive data active)
    (makeNodes (filterActive data active) active) ∧
  (radiusOf 0 = 20 ∧ radiusOf 1 = 20 ∧ radiusOf 2 = 25 ∧ radiusOf 5 = 40)%Z.
Proof.
  split; [|done].
  unfold makeNodes. induction (filterActive data active) as [|log fd IH].
  - constructor.
  - simpl. constructor; [|exact IH].
    simpl. unfold radiusOf, connectionsOf. repeat split. f_equal. lia.
Qed.

(** C4. In the edge list the resolver returns, no unordered pair of ids is
    joined by more than one edge; and when two catalog entries A and B with
    different ids are both active and list each other, exactly one edge
    joins them. The resolver returns whenever no active log type lists an
    active id that is missing from the catalog ([resolver_Ok_iff]). *)
Theorem C4_edge_dedup data active nodes links :
  resolver data active = Ok (nodes, links) →
  (∀ a b, (edgesBetween a b links ≤ 1)%nat) ∧
  (∀ A B, A ∈ data → B ∈ data →
          ZeekLogType.id A ∈ active → ZeekLogType.id B ∈ active →
          ZeekLogType.id A ≠ ZeekLogType.id B →
          ZeekLogType.id B ∈ ZeekLogType.relatedLogs A →
          ZeekLogType.id A ∈ ZeekLogType.relatedLogs B →
          edgesBetween (ZeekLogType.id A) (ZeekLogType.id B) links = 1%nat).
Proof.
  intros Hres. apply resolver_Ok_inv in Hres as [_ Hlinks].
  destruct (makeLinks_inv _ _ _ _ Hlinks) as [_ HD].
  split; [exact HD|].
  intros A B HA HB HAact HBact Hne HAB _.
  destruct (makeLinks_joined _ _ _ _ A (ZeekLogType.id B) Hlinks)
    as (e & He & Hj); try done.
  { by apply filterActive_elem_of. }
  pose proof (edgesBetween_pos _ _ _ _ He Hj).
  specialize (HD (ZeekLogType.id A) (ZeekLogType.id B)). lia.
Qed.

Lemma C4_edge_dedup_witness :
  (∀ a b, (edgesBetween a b [sampleLinkConnDns; sampleLinkConnHttp] ≤ 1)%nat) ∧
  edgesBetween "conn" "dns" [sampleLinkConnDns; sampleLinkConnHttp] = 1%nat.
Proof.
  pose proof (C4_edge_dedup sampleCatalog sampleActive
    (makeNodes (filterActive sampleCatalog sampleActive) sampleActive)
    [sampleLinkConnDns; sampleLinkConnHttp] eq_refl) as [H1 H2].
  split; [exact H1|].
  apply (H2 (mkLog "conn" "network" ["ts"; "uid"; "id.orig_h"; "id.resp_h"]
                   ["dns"; "http"])
            (mkLog "dns" "network" ["ts"; "uid"; "id.orig_h"; "query"]
                   ["conn"])).
  - left.
  - right; left.
  - by vm_compute.
  - by vm_compute.
  - discriminate.
  - left.
  - left.
Defined.

(** C5. Toggling off the node that is both active and selected leaves no
    selection (and removes the node from the active set); disabling all
    log types of a category leaves no selection whenever the selected id
    is the id of a catalog entry of that category. *)
Theorem C5_selection_cleared zeekLogs st :
  (∀ nodeId, nodeId ∈ activeNodes st → selectedNode st = Some nodeId →
     selectedNode (toggleNode nodeId st) = None ∧
     nodeId ∉ activeNodes (toggleNode nodeId st)) ∧
  (∀ categoryId nodeId, selectedNode st = Some nodeId →
     InCategory zeekLogs nodeId categoryId →
     selectedNode (toggleAllInCategory zeekLogs categoryId false st) = None).
Proof.
  split.
  - intros nodeId Hact Hsel. unfold toggleNode.
    rewrite (bool_decide_eq_true_2 _ Hact). simpl.
    rewrite (proj2 (isSelected_spec _ _) Hsel). split; [done|].
    rewrite elem_of_difference, elem_of_singleton. tauto.
  - intros categoryId nodeId Hsel (log & Hlog & Hid & Hcat).
    rewrite toggleAllInCategory_disable. simpl.
    assert (H : existsb
              (λ l, isSelected (selectedNode st) (ZeekLogType.id l))
              (List.filter
                 (λ l, String.eqb (ZeekLogType.category l) categoryId)
                 zeekLogs) = true); [|by rewrite H].
    apply existsb_exists. exists log. split.
    + apply List.filter_In. split; [by apply list_elem_of_In|].
      by apply String.eqb_eq.
    + apply isSelected_spec. by rewrite Hid.
Qed.

Lemma C5_selection_cleared_witness :
  (selectedNode (toggleNode "dns" sampleState) = None ∧
   "dns" ∉ activeNodes (toggleNode "dns" sampleState)) ∧
  selectedNode (toggleAllInCategory sampleCatalog "network" false sampleState)
    = None.
Proof.
  split.
  - apply (proj1 (C5_selection_cleared sampleCatalog sampleState) "dns").
    + by vm_compute.
    + reflexivity.
  - apply (proj2 (C5_selection_cleared sampleCatalog sampleState)
                 "network" "dns").
    + reflexivity.
    + eexists. split; [right; left|]. split; reflexivity.
Defined.

(** C6. Disabling all log types of a category twice gives the active set,
    and the whole state, that disabling them once gives. *)
Theorem C6_disable_all_idempotent zeekLogs categoryId st :
  activeNodes (toggleAllInCategory zeekLogs categoryId false
                 (toggleAllInCategory zeekLogs categoryId false st)) =
  activeNodes (toggleAllInCategory zeekLogs categoryId false st) ∧
  toggleAllInCategory zeekLogs categoryId false
    (toggleAllInCategory zeekLogs categoryId false st) =
  toggleAllInCategory zeekLogs categoryId false st.
Proof.
  assert (H : toggleAllInCategory zeekLogs categoryId false
                (toggleAllInCategory zeekLogs categoryId false st) =
              toggleAllInCategory zeekLogs categoryId false st);
    [|by rewrite H].
  rewrite !toggleAllInCategory_disable. simpl.
  rewrite difference_twice_L. f_equal.
  destruct (existsb (λ log, isSelected (selectedNode st) (ZeekLogType.id log))
              _) eqn:He; cbn match.
  - by rewrite existsb_isSelected_None.
  - by rewrite He.
Qed.

(** C7. With an empty active set the effect returns early, either at the
    mount and size guard or at the empty-list guard, so it starts no
    simulation, and the component renders the "No Log Types Selected"
    overlay. *)
Theorem C7_empty_active_set svgMounted dimensions data active :
  size active = 0%nat →
  (graphEffect svgMounted dimensions data active = Ok Deferred ∨
   graphEffect svgMounted dimensions data active = Ok NothingToDraw) ∧
  startsSimulation (graphEffect svgMounted dimensions data active) = false ∧
  emptyStateOverlay active = Some "No Log Types Selected".
Proof.
  intros Hsize.
  assert (Hempty : active = ∅) by by apply leibniz_equiv, size_empty_iff.
  subst active.
  assert (H : graphEffect svgMounted dimensions data ∅ = Ok Deferred ∨
              graphEffect svgMounted dimensions data ∅ = Ok NothingToDraw).
  { unfold graphEffect. destruct (_ || _ || _); [by left|].
    rewrite filterActive_empty. by right. }
  split; [exact H|]. split; [by destruct H as [-> | ->]|].
  reflexivity.
Qed.

Lemma C7_empty_active_set_witness :
  (graphEffect true measured sampleCatalog ∅ = Ok Deferred ∨
   graphEffect true measured sampleCatalog ∅ = Ok NothingToDraw) ∧
  startsSimulation (graphEffect true measured sampleCatalog ∅) = false ∧
  emptyStateOverlay ∅ = Some "No Log Types Selected".
Proof.
  apply (C7_empty_active_set true measured sampleCatalog ∅). reflexivity.
Defined.

(** C8. When the measured width or height is zero the effect returns at
    its first guard and starts no simulation; and whenever a simulation is
    started, neither dimension is zero and the centre is half the width and
    half the height. *)
Theorem C8_zero_viewport_defers svgMounted dimensions data active :
  (isZero (width dimensions) = true ∨ isZero (height dimensions) = true →
   graphEffect svgMounted dimensions data active = Ok Deferred ∧
   startsSimulation (graphEffect svgMounted dimensions data active) = false) ∧
  (∀ nodes links centerX centerY,
     graphEffect svgMounted dimensions data active =
       Ok (Simulation nodes links centerX centerY) →
     isZero (width dimensions) = false ∧
     isZero (height dimensions) = false ∧
     centerX = (width dimensions / 2)%float ∧
     centerY = (height dimensions / 2)%float).
Proof.
  unfold graphEffect. split.
  - intros H.
    assert (Hg : negb svgMounted || isZero (width dimensions) ||
                 isZero (height dimensions) = true).
    { destruct H as [-> | ->]; [|apply orb_true_r].
      rewrite orb_true_r. reflexivity. }
    by rewrite Hg.
  - intros nodes links cx cy H.
    destruct (isZero (width dimensions)), (isZero (height dimensions));
      rewrite ?orb_true_r in H; try discriminate.
    rewrite !orb_false_r in H. destruct (negb svgMounted); [discriminate|].
    destruct (_ =? _)%nat; [discriminate|].
    apply bind_Ok in H as ([n l] & _ & H). injection H as _ _ <- <-. done.
Qed.

Lemma C8_zero_viewport_defers_witness :
  graphEffect true unmeasured sampleCatalog sampleActive = Ok Deferred ∧
  startsSimulation (graphEffect true unmeasured sampleCatalog sampleActive)
    = false.
Proof.
  apply (proj1 (C8_zero_viewport_defers true unmeasured sampleCatalog
                  sampleActive)).
  left. reflexivity.
Defined.

(** C9 (the code departs from the claim). The claim: for every type string
    outside the enumeration the helper returns the default slate style.
    "constructor" is outside the enumeration, and both helpers return the
    member the [colors] literal inherits under that name, which is truthy,
    instead of their default style. *)
Theorem C9_inherited_key_escapes_default :
  ("constructor" ∉ knownTypes) ∧
  FieldDetails.getTypeColor "constructor" = VInherited "constructor" ∧
  FieldDetails.getTypeColor "constructor" ≠ VString FieldDetails.defaultStyle ∧
  LogTypeCard.getTypeColor "constructor" = VInherited "constructor" ∧
  LogTypeCard.getTypeColor "constructor" ≠ VString LogTypeCard.defaultStyle.
Proof.
  split; [intros H; unfold knownTypes in H; invert_elem_of|].
  split; [by vm_compute|]. split; [by vm_compute|].
  split; by vm_compute.
Qed.

(** C10. A log type is in the filtered sidebar list exactly when it is a
    catalog entry, its category is in the selected-category set, and, if
    the query is not empty, the lower-cased query is a substring of its
    lower-cased name, of its lower-cased description, or of the lower-cased
    name or description of one of its fields. *)
Theorem C10_filteredLogs_spec zeekLogs toLowerCase st log :
  log ∈ filteredLogs zeekLogs toLowerCase st ↔
  log ∈ zeekLogs ∧
  ZeekLogType.category log ∈ selectedCategories st ∧
  (searchQuery st ≠ "" →
   let query := toLowerCase (searchQuery st) in
   is_substring query (toLowerCase (ZeekLogType.name log)) ∨
   is_substring query (toLowerCase (ZeekLogType.description log)) ∨
   ∃ field, field ∈ ZeekLogType.fields log ∧
     (is_substring query (toLowerCase (ZeekField.name field)) ∨
      is_substring query (toLowerCase (ZeekField.description field)))).
Proof.
  unfold filteredLogs. rewrite list_elem_of_In, List.filter_In, <-list_elem_of_In.
  apply and_iff_compat_l. unfold keepLog.
  rewrite <-nonempty_spec. cbv zeta. rewrite <-matchesSearch_spec.
  destruct (bool_decide_reflect
              (ZeekLogType.category log ∈ selectedCategories st)) as [Hc|Hc];
    simpl; [|split; [discriminate | by intros [? _]]].
  destruct (nonempty (searchQuery st)).
  - destruct (matchesSearch toLowerCase (searchQuery st) log); simpl.
    + split; [by intros _ | done].
    + split; [discriminate|]. intros [_ H]. by apply H.
  - split; [intros _; split; [done | discriminate] | done].
Qed.

(** * Further properties of the code *)

(** ** Links: what is built, and only what is declared *)

Lemma addLink_cases fd active log links r links' :
  addLink fd active log links r = Ok links' →
  links' = links ∨
  (r ∈ active ∧ ZeekLogType.id log ≠ r ∧
   ∃ e, links' = links ++ [e] ∧ Link.source e = ZeekLogType.id log ∧
        Link.target e = r ∧ Link.strength e = 1%Z).
Proof.
  unfold addLink. intros H.
  destruct (bool_decide_reflect (r ∈ active)) as [Hr|_];
    [|injection H as <-; by left].
  destruct (String.eqb_spec (ZeekLogType.id log) r) as [_|Hne];
    [injection H as <-; by left|].
  simpl in H.
  destruct (List.find (joins (ZeekLogType.id log) r) links);
    [injection H as <-; by left|].
  apply bind_Ok in H as (pivots & _ & H). injection H as <-.
  right. split; [done|]. split; [done|]. eexists. split; [reflexivity|]. done.
Qed.

Lemma makeLinks_declared fd0 fd active links :
  foldM (addLinksOf fd active) fd0 [] = Ok links →
  Forall (LinkDeclared fd0 active) links.
Proof.
  apply (foldM_invariant (Forall (LinkDeclared fd0 active))); [|constructor].
  intros s log s' Hlog Hs. unfold addLinksOf.
  apply (foldM_invariant (Forall (LinkDeclared fd0 active))); [|done].
  intros s0 r s0' Hr Hs0 Hadd.
  apply addLink_cases in Hadd as [->|(Hact & Hne & e & -> & Hsrc & Htgt & Hst)];
    [done|].
  apply Forall_app. split; [done|]. constructor; [|constructor].
  exists log. rewrite Hsrc, Htgt. done.
Qed.

Lemma edgesBetween_sym a b links : edgesBetween a b links = edgesBetween b a links.
Proof.
  unfold edgesBetween. f_equal. apply List.filter_ext.
  intros e. unfold joins. apply orb_comm.
Qed.

Lemma edgesBetween_pos_inv a b links :
  (1 ≤ edgesBetween a b links)%nat → ∃ e, e ∈ links ∧ joins a b e = true.
Proof.
  unfold edgesBetween. intros H.
  destruct (List.filter (joins a b) links) as [|e l] eqn:Hf; [simpl in H; lia|].
  assert (Hin : In e (List.filter (joins a b) links)) by (rewrite Hf; by left).
  apply List.filter_In in Hin as [Hin Hj].
  exists e. split; [by apply list_elem_of_In | done].
Qed.

Lemma makeNodes_ids fd active :
  Node.id <$> makeNodes fd active = ZeekLogType.id <$> fd.
Proof. unfold makeNodes. induction fd as [|l fd IH]; [done|]. simpl. by f_equal. Qed.

(** X1. The resolver returns exactly on the inputs in which every active id
    listed by an active catalog entry is itself the id of a catalog entry;
    on every other input it throws. *)
Theorem X1_resolver_returns_iff data active :
  ((∃ nodes links, resolver data active = Ok (nodes, links)) ↔
   NoDangling data active) ∧
  ((∃ err, resolver data active = Throw err) ↔ ¬ NoDangling data active).
Proof.
  pose proof (resolver_Ok_iff data active) as Hiff.
  split; [exact Hiff|].
  destruct (resolver data active) as [[nodes links]|err] eqn:Hres.
  - split; [intros [err Herr]; discriminate|].
    intros Hn. exfalso. apply Hn, Hiff. eauto.
  - split; [|eauto]. intros _ Hnd. apply Hiff in Hnd as (n & l & H).
    discriminate.
Qed.

Lemma resolver_edge_closure data active nodes links e :
  resolver data active = Ok (nodes, links) → e ∈ links →
  Link.source e ≠ Link.target e ∧
  Link.source e ∈ active ∧ Link.target e ∈ active ∧
  (∃ log, log ∈ data ∧ ZeekLogType.id log = Link.source e ∧
          Link.target e ∈ ZeekLogType.relatedLogs log) ∧
  (∃ log, log ∈ data ∧ ZeekLogType.id log = Link.target e) ∧
  (∃ n, n ∈ nodes ∧ Node.id n = Link.source e) ∧
  (∃ n, n ∈ nodes ∧ Node.id n = Link.target e) ∧
  Link.strength e = 1%Z.
Proof.
  intros Hres He. apply resolver_Ok_inv in Hres as [-> Hlinks].
  pose proof (makeLinks_declared _ _ _ _ Hlinks) as HD.
  pose proof (makeLinks_inv _ _ _ _ Hlinks) as [HF _].
  rewrite Forall_forall in HD, HF.
  destruct (HD e He) as (log & Hlog & Hsrc & Hrel & Hact & Hne & Hst).
  destruct (HF e He) as (l1 & l2 & H1 & H2 & _).
  apply findLog_Some in H1 as [H1 H1'], H2 as [H2 H2'].
  assert (Hnode : ∀ l, l ∈ filterActive data active →
            ∃ n, n ∈ makeNodes (filterActive data active) active ∧
                 Node.id n = ZeekLogType.id l).
  { intros l Hl. exists (makeNode active l). split; [|done].
    unfold makeNodes. apply list_elem_of_In, in_map. by apply list_elem_of_In. }
  destruct (Hnode l1 H1) as (n1 & Hn1 & Hid1).
  destruct (Hnode l2 H2) as (n2 & Hn2 & Hid2).
  apply filterActive_elem_of in Hlog as [Hlog Hlogact].
  apply filterActive_elem_of in H2 as [H2 _].
  repeat split; try done.
  - by rewrite Hsrc.
  - exists log. by rewrite Hsrc.
  - by exists l2.
  - exists n1. split; [done | congruence].
  - exists n2. split; [done | congruence].
Qed.

(** X2. Every link the resolver returns joins two different ids that are
    both active, both ids of catalog entries and both ids of returned
    nodes; the entry at its source lists its target; its strength is 1. *)
Theorem X2_edge_closure data active nodes links e :
  resolver data active = Ok (nodes, links) → e ∈ links →
  Link.source e ≠ Link.target e ∧
  Link.source e ∈ active ∧ Link.target e ∈ active ∧
  (∃ log, log ∈ data ∧ ZeekLogType.id log = Link.source e ∧
          Link.target e ∈ ZeekLogType.relatedLogs log) ∧
  (∃ log, log ∈ data ∧ ZeekLogType.id log = Link.target e) ∧
  (∃ n, n ∈ nodes ∧ Node.id n = Link.source e) ∧
  (∃ n, n ∈ nodes ∧ Node.id n = Link.target e) ∧
  Link.strength e = 1%Z.
Proof. apply resolver_edge_closure. Qed.

Lemma X2_edge_closure_witness :
  "conn" ≠ "dns" ∧ "conn" ∈ sampleActive ∧ "dns" ∈ sampleActive ∧
  (∃ log, log ∈ sampleCatalog ∧ ZeekLogType.id log = "conn" ∧
          "dns" ∈ ZeekLogType.relatedLogs log) ∧
  (∃ log, log ∈ sampleCatalog ∧ ZeekLogType.id log = "dns") ∧
  (∃ n, n ∈ makeNodes (filterActive sampleCatalog sampleActive) sampleActive ∧
        Node.id n = "conn") ∧
  (∃ n, n ∈ makeNodes (filterActive sampleCatalog sampleActive) sampleActive ∧
        Node.id n = "dns") ∧
  1%Z = 1%Z.
Proof.
  apply (X2_edge_closure sampleCatalog sampleActive
           (makeNodes (filterActive sampleCatalog sampleActive) sampleActive)
           [sampleLinkConnDns; sampleLinkConnHttp] sampleLinkConnDns).
  - vm_compute. reflexivity.
  - left.
Defined.

(** X3. In the returned edge list, two ids are joined by an edge exactly
    when they differ, both are active, and an active catalog entry with
    one of the ids lists the other; a pair is joined once or not at all. *)
Theorem X3_edge_iff_declared data active nodes links a b :
  resolver data active = Ok (nodes, links) →
  (edgesBetween a b links = 1%nat ↔
   a ≠ b ∧ a ∈ active ∧ b ∈ active ∧
   (Lists data active a b ∨ Lists data active b a)) ∧
  (edgesBetween a b links = 0%nat ∨ edgesBetween a b links = 1%nat).
Proof.
  intros Hres. pose proof Hres as Hres'.
  apply resolver_Ok_inv in Hres as [_ Hlinks].
  pose proof (makeLinks_declared _ _ _ _ Hlinks) as HD.
  pose proof (makeLinks_inv _ _ _ _ Hlinks) as [_ Hle].
  rewrite Forall_forall in HD.
  split; [|specialize (Hle a b); lia].
  split.
  - intros H1.
    destruct (edgesBetween_pos_inv a b links) as (e & He & Hj); [lia|].
    destruct (resolver_edge_closure _ _ _ _ e Hres' He)
      as (Hne & Hs & Ht & (log & Hlog & Hid & Hrel) & _).
    apply joins_true_iff in Hj as [[<- <-]|[<- <-]].
    + repeat split; try done. left. exists log. by rewrite Hid.
    + repeat split; try done. right. exists log. by rewrite Hid.
  - intros (Hne & Ha & Hb & Hl).
    assert (Hone : ∀ x y, x ≠ y → y ∈ active → Lists data active x y →
                          edgesBetween x y links = 1%nat).
    { intros x y Hxy Hy (log & Hlog & Hid & Hx & Hrel). subst x.
      destruct (makeLinks_joined _ _ _ _ log y Hlinks) as (e & He & Hj);
        try done.
      { by apply filterActive_elem_of. }
      pose proof (edgesBetween_pos _ _ _ _ He Hj).
      specialize (Hle (ZeekLogType.id log) y). lia. }
    destruct Hl as [Hl|Hl]; [by apply Hone|].
    rewrite edgesBetween_sym. by apply Hone.
Qed.

Lemma X3_edge_iff_declared_witness :
  (edgesBetween "dns" "conn" [sampleLinkConnDns; sampleLinkConnHttp] = 1%nat ↔
   "dns" ≠ "conn" ∧ "dns" ∈ sampleActive ∧ "conn" ∈ sampleActive ∧
   (Lists sampleCatalog sampleActive "dns" "conn" ∨
    Lists sampleCatalog sampleActive "conn" "dns")) ∧
  (edgesBetween "dns" "conn" [sampleLinkConnDns; sampleLinkConnHttp] = 0%nat ∨
   edgesBetween "dns" "conn" [sampleLinkConnDns; sampleLinkConnHttp] = 1%nat).
Proof.
  apply (X3_edge_iff_declared sampleCatalog sampleActive
           (makeNodes (filterActive sampleCatalog sampleActive) sampleActive)).
  vm_compute. reflexivity.
Defined.

(** X4. The node list has one node per catalog entry with an active id, in
    catalog order, with the entry's id, name, category and colour; no node
    has a radius below 20, and its connection count is at most the number
    of ids the entry lists. *)
Theorem X4_node_closure data active :
  Node.id <$> makeNodes (filterActive data active) active =
    filter (λ i, i ∈ active) (ZeekLogType.id <$> data) ∧
  Forall2
    (λ log n,
       Node.id n = ZeekLogType.id log ∧ Node.name n = ZeekLogType.name log ∧
       Node.category n = ZeekLogType.category log ∧
       Node.color n = ZeekLogType.color log ∧
       (20 ≤ Node.radius n)%Z ∧
       (0 ≤ Node.connections n ≤
        Z.of_nat (length (ZeekLogType.relatedLogs log)))%Z)
    (filterActive data active)
    (makeNodes (filterActive data active) active).
Proof.
  split.
  - rewrite makeNodes_ids. unfold filterActive.
    induction data as [|l data IH]; [done|].
    rewrite fmap_cons, !filter_cons. simpl.
    destruct (decide (ZeekLogType.id l ∈ active)); [|exact IH].
    rewrite fmap_cons. by f_equal.
  - unfold makeNodes.
    induction (filterActive data active) as [|log fd IH]; [constructor|].
    simpl. constructor; [|exact IH]. simpl.
    unfold radiusOf, connectionsOf.
    pose proof (length_filter (λ relatedId, relatedId ∈ active)
                  (ZeekLogType.relatedLogs log)).
    repeat split; lia.
Qed.

(** ** Pivot lists *)

Lemma pivotsOf_shape (uid ip hash host : bool) :
  pivotsOf uid ip hash host `sublist_of` ["uid"; "IP"; "hash"; "hostname"; "ts"] ∧
  last (pivotsOf uid ip hash host) = Some "ts" ∧
  (1 ≤ length (pivotsOf uid ip hash host) ≤ 5)%nat.
Proof.
  destruct uid, ip, hash, host; vm_compute pivotsOf;
    (split; [solve [repeat constructor] | split; [reflexivity | simpl; lia]]).
Qed.

Lemma NoDup_pivot_tags : NoDup ["uid"; "IP"; "hash"; "hostname"; "ts"].
Proof.
  repeat (constructor; [intros H; invert_elem_of|]). constructor.
Qed.

(** X5. The pivot list of every returned link is a selection, in this
    order and without repetition, of "uid", "IP", "hash", "hostname", "ts";
    its last element is "ts"; and [connectionCount] is its length, between
    1 and 5. *)
Theorem X5_pivot_list_shape data active nodes links e :
  resolver data active = Ok (nodes, links) → e ∈ links →
  Link.pivotProperties e `sublist_of` ["uid"; "IP"; "hash"; "hostname"; "ts"] ∧
  NoDup (Link.pivotProperties e) ∧
  last (Link.pivotProperties e) = Some "ts" ∧
  Link.connectionCount e = Z.of_nat (length (Link.pivotProperties e)) ∧
  (1 ≤ Link.connectionCount e ≤ 5)%Z.
Proof.
  intros Hres He. apply resolver_Ok_inv in Hres as [_ Hlinks].
  pose proof (makeLinks_inv _ _ _ _ Hlinks) as [HF _].
  rewrite Forall_forall in HF.
  destruct (HF e He) as (l1 & l2 & _ & _ & Hp & Hc).
  rewrite findPivotProperties_Some in Hp. injection Hp as Hp.
  rewrite Hc, <-Hp.
  match goal with
  | |- context [pivotsOf ?u ?i ?h ?o] =>
      destruct (pivotsOf_shape u i h o) as (Hsub & Hlast & Hlen)
  end.
  split; [done|].
  split; [eapply sublist_NoDup; eauto using NoDup_pivot_tags|].
  split; [done|]. split; [done|lia].
Qed.

Lemma X5_pivot_list_shape_witness :
  ["uid"; "IP"; "ts"] `sublist_of` ["uid"; "IP"; "hash"; "hostname"; "ts"] ∧
  NoDup ["uid"; "IP"; "ts"] ∧
  last ["uid"; "IP"; "ts"] = Some "ts" ∧
  3%Z = Z.of_nat (length ["uid"; "IP"; "ts"]) ∧
  (1 ≤ 3 ≤ 5)%Z.
Proof.
  apply (X5_pivot_list_shape sampleCatalog sampleActive
           (makeNodes (filterActive sampleCatalog sampleActive) sampleActive)
           [sampleLinkConnDns; sampleLinkConnHttp] sampleLinkConnDns).
  - vm_compute. reflexivity.
  - left.
Defined.

(** X6. The pivot list does not depend on the order of the two log types:
    whichever of them is the source of the link, the tags are the same. *)
Theorem X6_pivots_symmetric (log1 log2 : ZeekLogType.t) :
  findPivotProperties (Some log1) (Some log2) =
  findPivotProperties (Some log2) (Some log1).
Proof.
  rewrite !findPivotProperties_Some. f_equal. f_equal; apply andb_comm.
Qed.

(** ** When the simulation starts *)

Lemma filterActive_nil_iff data active :
  filterActive data active = [] ↔
  ¬ ∃ log, log ∈ data ∧ ZeekLogType.id log ∈ active.
Proof.
  split.
  - intros H (log & Hlog & Hact).
    assert (Hin : log ∈ filterActive data active)
      by by apply filterActive_elem_of.
    rewrite H in Hin. by apply elem_of_nil in Hin.
  - intros H. destruct (filterActive data active) as [|l fd] eqn:Hf; [done|].
    exfalso. apply H. exists l.
    apply filterActive_elem_of. rewrite Hf. left.
Qed.

(** X7. One run of the effect starts a simulation exactly when the SVG is
    mounted, neither dimension is zero, some catalog entry has an active
    id, and no active entry lists an active id missing from the catalog;
    the simulation then runs on the resolver's nodes and links. *)
Theorem X7_simulation_starts_iff svgMounted dimensions data active :
  (startsSimulation (graphEffect svgMounted dimensions data active) = true ↔
   svgMounted = true ∧
   isZero (width dimensions) = false ∧ isZero (height dimensions) = false ∧
   (∃ log, log ∈ data ∧ ZeekLogType.id log ∈ active) ∧
   NoDangling data active) ∧
  (∀ nodes links centerX centerY,
     graphEffect svgMounted dimensions data active =
       Ok (Simulation nodes links centerX centerY) →
     resolver data active = Ok (nodes, links) ∧ nodes ≠ []).
Proof.
  unfold graphEffect.
  destruct svgMounted, (isZero (width dimensions)),
    (isZero (height dimensions)); simpl;
    try (split; [split; [discriminate | intros (? & ? & ? & _); discriminate]
                | intros; discriminate]).
  destruct (filterActive data active) as [|l fd] eqn:Hfd; simpl.
  - apply filterActive_nil_iff in Hfd.
    split; [split; [discriminate | intros (_ & _ & _ & H & _); done]
           | intros; discriminate].
  - assert (Hex : ∃ log, log ∈ data ∧ ZeekLogType.id log ∈ active).
    { exists l. apply filterActive_elem_of. rewrite Hfd. left. }
    pose proof (resolver_Ok_iff data active) as Hiff.
    destruct (resolver data active) as [[nodes links]|err] eqn:Hres; simpl.
    + split.
      * split; [intros _|done]. repeat split; try done. apply Hiff. eauto.
      * intros n0 l0 cx cy H. injection H as <- <- _ _. split; [done|].
        apply resolver_Ok_inv in Hres as [-> _]. rewrite Hfd. done.
    + split; [|intros; discriminate].
      split; [discriminate|]. intros (_ & _ & _ & _ & Hnd).
      apply Hiff in Hnd as (? & ? & ?). discriminate.
Qed.

(** ** Link labels *)

(** X8. The label of a returned link shows its first two pivot tags; it
    contains "ts" exactly when the link has at most two tags, that is when
    at most one of the four conditional pivots applies. *)
Theorem X8_link_label data active nodes links e :
  resolver data active = Ok (nodes, links) → e ∈ links →
  linkLabel e ≠ "" ∧
  (is_substring "ts" (linkLabel e) ↔ (Link.connectionCount e ≤ 2)%Z).
Proof.
  intros Hres He. apply resolver_Ok_inv in Hres as [_ Hlinks].
  pose proof (makeLinks_inv _ _ _ _ Hlinks) as [HF _].
  rewrite Forall_forall in HF.
  destruct (HF e He) as (l1 & l2 & _ & _ & Hp & Hc).
  rewrite findPivotProperties_Some in Hp. injection Hp as Hp.
  unfold linkLabel. rewrite Hc, <-Hp, <-includes_spec.
  match goal with
  | |- context [pivotsOf ?u ?i ?h ?o] => destruct u, i, h, o
  end; vm_compute; (split; [discriminate|]);
    split; intros H; first [done | discriminate | by exfalso].
Qed.

Lemma X8_link_label_witness :
  join ", " (take 2 ["uid"; "IP"; "ts"]) ≠ "" ∧
  (is_substring "ts" (join ", " (take 2 ["uid"; "IP"; "ts"])) ↔ (3 ≤ 2)%Z).
Proof.
  apply (X8_link_label sampleCatalog sampleActive
           (makeNodes (filterActive sampleCatalog sampleActive) sampleActive)
           [sampleLinkConnDns; sampleLinkConnHttp] sampleLinkConnDns).
  - vm_compute. reflexivity.
  - left.
Defined.

(** ** Toggles of [App] *)

Lemma AppState_eq (s1 s2 : AppState) :
  activeNodes s1 = activeNodes s2 → selectedNode s1 = selectedNode s2 →
  selectedCategories s1 = selectedCategories s2 →
  searchQuery s1 = searchQuery s2 → s1 = s2.
Proof. destruct s1, s2. simpl. by intros -> -> -> ->. Qed.

(** X9. Toggling a node flips the membership of that id in the active set
    and of no other id, leaves the category filter and the search query
    alone, and toggling the same node twice restores the active set. *)
Theorem X9_toggleNode_active_set nodeId st :
  (∀ x, x ∈ activeNodes (toggleNode nodeId st) ↔
        (x = nodeId ∧ nodeId ∉ activeNodes st) ∨
        (x ≠ nodeId ∧ x ∈ activeNodes st)) ∧
  selectedCategories (toggleNode nodeId st) = selectedCategories st ∧
  searchQuery (toggleNode nodeId st) = searchQuery st ∧
  activeNodes (toggleNode nodeId (toggleNode nodeId st)) = activeNodes st.
Proof.
  assert (Hmem : ∀ st x, x ∈ activeNodes (toggleNode nodeId st) ↔
            (x = nodeId ∧ nodeId ∉ activeNodes st) ∨
            (x ≠ nodeId ∧ x ∈ activeNodes st)).
  { intros st0 x. unfold toggleNode.
    destruct (bool_decide_reflect (nodeId ∈ activeNodes st0)) as [Hin|Hout];
      simpl.
    - rewrite elem_of_difference, elem_of_singleton. tauto.
    - rewrite elem_of_union, elem_of_singleton.
      destruct (decide (x = nodeId)) as [->|Hne]; tauto. }
  split; [apply Hmem|].
  split; [unfold toggleNode; by destruct (bool_decide _)|].
  split; [unfold toggleNode; by destruct (bool_decide _)|].
  apply set_eq. intros x. rewrite Hmem, !Hmem.
  destruct (decide (x = nodeId)) as [->|Hne];
    destruct (decide (nodeId ∈ activeNodes st)); tauto.
Qed.

Lemma toggleNode_selection_cleared nodeId st :
  nodeId ∈ activeNodes st → selectedNode st = Some nodeId →
  selectedNode (toggleNode nodeId st) = None.
Proof.
  intros Hact Hsel. unfold toggleNode.
  rewrite (bool_decide_eq_true_2 _ Hact). simpl.
  by rewrite (proj2 (isSelected_spec _ _) Hsel).
Qed.


(** X11. Toggling a category flips the membership of that id in the
    category filter and touches nothing else; toggling it twice gives back
    the state. *)
Theorem X11_toggleCategory_involutive categoryId st :
  (∀ x, x ∈ selectedCategories (toggleCategory categoryId st) ↔
        (x = categoryId ∧ categoryId ∉ selectedCategories st) ∨
        (x ≠ categoryId ∧ x ∈ selectedCategories st)) ∧
  activeNodes (toggleCategory categoryId st) = activeNodes st ∧
  selectedNode (toggleCategory categoryId st) = selectedNode st ∧
  toggleCategory categoryId (toggleCategory categoryId st) = st.
Proof.
  assert (Hmem : ∀ st x,
            x ∈ selectedCategories (toggleCategory categoryId st) ↔
            (x = categoryId ∧ categoryId ∉ selectedCategories st) ∨
            (x ≠ categoryId ∧ x ∈ selectedCategories st)).
  { intros st0 x. unfold toggleCategory. simpl.
    destruct (bool_decide_reflect (categoryId ∈ selectedCategories st0))
      as [Hin|Hout].
    - rewrite elem_of_difference, elem_of_singleton. tauto.
    - rewrite elem_of_union, elem_of_singleton.
      destruct (decide (x = categoryId)) as [->|Hne]; tauto. }
  split; [apply Hmem|]. split; [done|]. split; [done|].
  apply AppState_eq; try done.
  apply set_eq. intros x. rewrite Hmem, !Hmem.
  destruct (decide (x = categoryId)) as [->|Hne];
    destruct (decide (categoryId ∈ selectedCategories st)); tauto.
Qed.

Lemma enable_fold selected logs (newSet : gset string) pending :
  fold_left (toggleOne true selected) logs (newSet, pending) =
  (newSet ∪ list_to_set (ZeekLogType.id <$> logs), pending).
Proof.
  revert newSet. induction logs as [|log logs IH]; intros newSet.
  - simpl. by rewrite union_empty_r_L.
  - cbn [fold_left]. unfold toggleOne at 2. cbn [fst snd]. rewrite IH.
    simpl. f_equal. apply set_eq. intros x. rewrite !elem_of_union. tauto.
Qed.

Lemma toggleAllInCategory_enable zeekLogs categoryId st :
  toggleAllInCategory zeekLogs categoryId true st =
  let categoryLogs :=
    List.filter (λ log, String.eqb (ZeekLogType.category log) categoryId)
                zeekLogs in
  {| activeNodes :=
       activeNodes st ∪ list_to_set (ZeekLogType.id <$> categoryLogs);
     selectedNode := selectedNode st;
     selectedCategories := selectedCategories st;
     searchQuery := searchQuery st |}.
Proof. unfold toggleAllInCategory. by rewrite enable_fold. Qed.

Lemma category_ids_spec zeekLogs categoryId x :
  x ∈ (list_to_set
         (ZeekLogType.id <$>
          List.filter (λ log, String.eqb (ZeekLogType.category log) categoryId)
                      zeekLogs) : gset string) ↔
  InCategory zeekLogs x categoryId.
Proof.
  rewrite elem_of_list_to_set, list_elem_of_fmap. unfold InCategory.
  split.
  - intros (log & -> & Hin). apply list_elem_of_In, List.filter_In in Hin
      as [Hin Hc]. exists log. split; [by apply list_elem_of_In|].
    split; [done | by apply String.eqb_eq].
  - intros (log & Hin & <- & Hc). exists log. split; [done|].
    apply list_elem_of_In, List.filter_In. split; [by apply list_elem_of_In|].
    by apply String.eqb_eq.
Qed.

Lemma toggleAllInCategory_effect zeekLogs categoryId st :
  (∀ x, x ∈ activeNodes (toggleAllInCategory zeekLogs categoryId true st) ↔
        x ∈ activeNodes st ∨ InCategory zeekLogs x categoryId) ∧
  selectedNode (toggleAllInCategory zeekLogs categoryId true st) =
    selectedNode st ∧
  (∀ x, x ∈ activeNodes (toggleAllInCategory zeekLogs categoryId false st) ↔
        x ∈ activeNodes st ∧ ¬ InCategory zeekLogs x categoryId) ∧
  (∀ s, selectedNode st = Some s →
        (selectedNode (toggleAllInCategory zeekLogs categoryId false st) = None
           ↔ InCategory zeekLogs s categoryId) ∧
        (¬ InCategory zeekLogs s categoryId →
         selectedNode (toggleAllInCategory zeekLogs categoryId false st)
           = Some s)) ∧
  (∀ enable,
     selectedCategories (toggleAllInCategory zeekLogs categoryId enable st) =
       selectedCategories st ∧
     searchQuery (toggleAllInCategory zeekLogs categoryId enable st) =
       searchQuery st).
Proof.
  split; [|split; [|split; [|split]]].
  - intros x. rewrite toggleAllInCategory_enable. simpl.
    by rewrite elem_of_union, category_ids_spec.
  - by rewrite toggleAllInCategory_enable.
  - intros x. rewrite toggleAllInCategory_disable. simpl.
    by rewrite elem_of_difference, category_ids_spec.
  - intros s Hs. rewrite toggleAllInCategory_disable. simpl. rewrite Hs.
    assert (Hex : existsb (λ log, isSelected (Some s) (ZeekLogType.id log))
              (List.filter
                 (λ log, String.eqb (ZeekLogType.category log) categoryId)
                 zeekLogs) = true ↔ InCategory zeekLogs s categoryId).
    { rewrite existsb_elem_of. unfold InCategory. split.
      - intros (log & Hin & Hsel). apply isSelected_spec in Hsel.
        apply list_elem_of_In, List.filter_In in Hin as [Hin Hc].
        exists log. split; [by apply list_elem_of_In|].
        split; [congruence | by apply String.eqb_eq].
      - intros (log & Hin & Hid & Hc). exists log. split.
        + apply list_elem_of_In, List.filter_In.
          split; [by apply list_elem_of_In | by apply String.eqb_eq].
        + apply isSelected_spec. by rewrite Hid. }
    destruct (existsb _ _).
    + split; [split; [intros _; by apply Hex | done]|].
      intros Hn. exfalso. by apply Hn, Hex.
    + split; [|done]. split; [discriminate|]. intros H. apply Hex in H.
      discriminate.
  - intros [|]; [by rewrite toggleAllInCategory_enable
                | by rewrite toggleAllInCategory_disable].
Qed.

(** X12. "Enable all" adds to the active set exactly the ids of the catalog
    entries of the category and keeps the selection; "disable all" removes
    exactly those ids, and empties the selection exactly when the selected
    id is one of them. Neither touches the category filter or the query. *)
Theorem X12_toggleAllInCategory_effect zeekLogs categoryId st :
  (∀ x, x ∈ activeNodes (toggleAllInCategory zeekLogs categoryId true st) ↔
        x ∈ activeNodes st ∨ InCategory zeekLogs x categoryId) ∧
  selectedNode (toggleAllInCategory zeekLogs categoryId true st) =
    selectedNode st ∧
  (∀ x, x ∈ activeNodes (toggleAllInCategory zeekLogs categoryId false st) ↔
        x ∈ activeNodes st ∧ ¬ InCategory zeekLogs x categoryId) ∧
  (∀ s, selectedNode st = Some s →
        (selectedNode (toggleAllInCategory zeekLogs categoryId false st) = None
           ↔ InCategory zeekLogs s categoryId) ∧
        (¬ InCategory zeekLogs s categoryId →
         selectedNode (toggleAllInCategory zeekLogs categoryId false st)
           = Some s)) ∧
  (∀ enable,
     selectedCategories (toggleAllInCategory zeekLogs categoryId enable st) =
       selectedCategories st ∧
     searchQuery (toggleAllInCategory zeekLogs categoryId enable st) =
       searchQuery st).
Proof. apply toggleAllInCategory_effect. Qed.

(** X13. On the active set, "enable all" followed by "disable all" for the
    same category is "disable all", "disable all" followed by "enable all"
    is "enable all", and "enable all" twice is "enable all" once. *)
Theorem X13_toggleAll_compose zeekLogs categoryId st :
  activeNodes (toggleAllInCategory zeekLogs categoryId false
                 (toggleAllInCategory zeekLogs categoryId true st)) =
    activeNodes (toggleAllInCategory zeekLogs categoryId false st) ∧
  activeNodes (toggleAllInCategory zeekLogs categoryId true
                 (toggleAllInCategory zeekLogs categoryId false st)) =
    activeNodes (toggleAllInCategory zeekLogs categoryId true st) ∧
  toggleAllInCategory zeekLogs categoryId true
    (toggleAllInCategory zeekLogs categoryId true st) =
    toggleAllInCategory zeekLogs categoryId true st.
Proof.
  repeat first [ rewrite toggleAllInCategory_enable
               | rewrite toggleAllInCategory_disable ]. simpl.
  split; [|split].
  - by rewrite difference_union_distr_l_L, difference_diag_L, union_empty_r_L.
  - by rewrite difference_union_L.
  - f_equal. apply set_eq. intros x. rewrite !elem_of_union. tauto.
Qed.

(** ** The sidebar: filtered list, category groups, selected log type *)

Lemma filter_all {A : Type} (p : A → bool) (l : list A) :
  (∀ x, x ∈ l → p x = true) → List.filter p l = l.
Proof.
  induction l as [|x l IH]; intros H; [done|]. simpl.
  rewrite (H x); [|left]. f_equal. apply IH. intros y Hy. apply H. by right.
Qed.

Lemma filter_none {A : Type} (p : A → bool) (l : list A) :
  (∀ x, x ∈ l → p x = false) → List.filter p l = [].
Proof.
  induction l as [|x l IH]; intros H; [done|]. simpl.
  rewrite (H x); [|left]. apply IH. intros y Hy. apply H. by right.
Qed.

Lemma filter_filter_andb {A : Type} (p q r : A → bool) (l : list A) :
  (∀ x, p x = r x && q x) →
  List.filter p l = List.filter q (List.filter r l).
Proof.
  intros H. induction l as [|x l IH]; [done|]. simpl. rewrite H.
  destruct (r x); simpl; [|exact IH]. destruct (q x); [by f_equal | exact IH].
Qed.

Lemma filter_sublist {A : Type} (p : A → bool) (l : list A) :
  List.filter p l `sublist_of` l.
Proof.
  induction l as [|x l IH]; [constructor|]. simpl.
  destruct (p x); by constructor.
Qed.

Section Sidebar.

Variable zeekLogs : list ZeekLogType.t.
Variable toLowerCase : string → string.

Lemma filteredLogs_ext st st' :
  selectedCategories st = selectedCategories st' →
  searchQuery st = searchQuery st' →
  filteredLogs zeekLogs toLowerCase st = filteredLogs zeekLogs toLowerCase st'.
Proof.
  intros Hc Hq. unfold filteredLogs. apply List.filter_ext.
  intros log. unfold keepLog. by rewrite Hc, Hq.
Qed.

Lemma categoryLogs_elem_of st categoryId log :
  log ∈ categoryLogs zeekLogs toLowerCase st categoryId →
  log ∈ zeekLogs ∧ ZeekLogType.category log = categoryId.
Proof.
  unfold categoryLogs, filteredLogs. intros H.
  apply list_elem_of_In, List.filter_In in H as [H Hc].
  apply List.filter_In in H as [H _].
  split; [by apply list_elem_of_In | by apply String.eqb_eq].
Qed.

(** X14. The button of a category group acts on every catalog entry of the
    category, also on those the search filter hides: when not all listed
    entries were active, a click makes every entry of the category active
    and the group all active; when all were active, a click leaves no
    entry of the category active. The listed entries stay the same. *)
Theorem X14_category_button categoryId st :
  categoryLogs zeekLogs toLowerCase
      (clickToggleAll zeekLogs toLowerCase categoryId st) categoryId =
    categoryLogs zeekLogs toLowerCase st categoryId ∧
  (allActive zeekLogs toLowerCase st categoryId = false →
   (∀ log, log ∈ zeekLogs → ZeekLogType.category log = categoryId →
      ZeekLogType.id log ∈
        activeNodes (clickToggleAll zeekLogs toLowerCase categoryId st)) ∧
   allActive zeekLogs toLowerCase
     (clickToggleAll zeekLogs toLowerCase categoryId st) categoryId = true) ∧
  (allActive zeekLogs toLowerCase st categoryId = true →
   (∀ log, log ∈ zeekLogs → ZeekLogType.category log = categoryId →
      ZeekLogType.id log ∉
        activeNodes (clickToggleAll zeekLogs toLowerCase categoryId st)) ∧
   someActive zeekLogs toLowerCase
     (clickToggleAll zeekLogs toLowerCase categoryId st) categoryId = false).
Proof.
  pose proof (toggleAllInCategory_effect zeekLogs categoryId st)
    as (Hen & _ & Hdis & _ & Hframe).
  assert (Hsame : ∀ enable,
            categoryLogs zeekLogs toLowerCase
              (toggleAllInCategory zeekLogs categoryId enable st) categoryId =
            categoryLogs zeekLogs toLowerCase st categoryId).
  { intros enable. reflexivity. }
  unfold clickToggleAll. split; [apply Hsame|].
  split; intros Hall; rewrite Hall; simpl.
  - assert (Hin : ∀ log, log ∈ zeekLogs →
              ZeekLogType.category log = categoryId →
              ZeekLogType.id log ∈
                activeNodes (toggleAllInCategory zeekLogs categoryId true st)).
    { intros log Hlog Hc. apply Hen. right. by exists log. }
    split; [exact Hin|].
    unfold allActive, activeCategoryLogs. rewrite Hsame, filter_all.
    + apply Nat.eqb_refl.
    + intros log Hlog. apply categoryLogs_elem_of in Hlog as [Hlog Hc].
      apply bool_decide_eq_true_2. by apply Hin.
  - assert (Hout : ∀ log, log ∈ zeekLogs →
              ZeekLogType.category log = categoryId →
              ZeekLogType.id log ∉
                activeNodes (toggleAllInCategory zeekLogs categoryId false st)).
    { intros log Hlog Hc Hact. apply Hdis in Hact as [_ Hn]. apply Hn.
      by exists log. }
    split; [exact Hout|].
    unfold someActive, activeCategoryLogs. rewrite Hsame, filter_none; [done|].
    intros log Hlog. apply categoryLogs_elem_of in Hlog as [Hlog Hc].
    apply bool_decide_eq_false_2. by apply Hout.
Qed.

(** X15. The selected log type is a catalog entry whose id is the selected
    id; there is none when nothing is selected, when the selected id is the
    empty string, or when no catalog entry has the selected id; and
    toggling off the active, selected node leaves none. *)
Theorem X15_selectedLogType st :
  (∀ log, selectedLogType zeekLogs st = Some log →
     log ∈ zeekLogs ∧ selectedNode st = Some (ZeekLogType.id log) ∧
     ZeekLogType.id log ≠ "") ∧
  (selectedLogType zeekLogs st = None ↔
     selectedNode st = None ∨ selectedNode st = Some "" ∨
     ∃ s, selectedNode st = Some s ∧
          ∀ log, log ∈ zeekLogs → ZeekLogType.id log ≠ s) ∧
  (∀ nodeId, nodeId ∈ activeNodes st → selectedNode st = Some nodeId →
     selectedLogType zeekLogs (toggleNode nodeId st) = None).
Proof.
  unfold selectedLogType. split; [|split].
  - intros log H. destruct (selectedNode st) as [s|]; [|discriminate].
    destruct (nonempty s) eqn:Hs; [|discriminate].
    apply nonempty_spec in Hs. apply findLog_Some in H as [H <-]. done.
  - destruct (selectedNode st) as [s|]; [|split; [by left | done]].
    destruct (nonempty s) eqn:Hs.
    + apply nonempty_spec in Hs. split.
      * intros Hf. right; right. exists s. split; [done|].
        intros log Hlog <-.
        destruct (findLog_elem_of _ _ Hlog) as [l' Hl']. congruence.
      * intros [H|[H|(s' & H & Hno)]]; [discriminate | congruence |].
        injection H as <-.
        destruct (findLog zeekLogs s) as [l|] eqn:Hf; [|done].
        apply findLog_Some in Hf as [Hl Hid]. by destruct (Hno l Hl).
    + split; [intros _|done]. right; left.
      destruct (String.eqb_spec s "") as [->|Hne]; [done|].
      apply nonempty_spec in Hne. congruence.
  - intros nodeId Hact Hsel.
    by rewrite toggleNode_selection_cleared.
Qed.

(** X16. The filtered list keeps catalog order and does not depend on the
    active set or the selection; removing a selected category from the
    filter removes exactly the entries of that category from the list; and
    with an empty query the list is the catalog filtered by category
    alone. *)
Theorem X16_filteredLogs_composition st :
  filteredLogs zeekLogs toLowerCase st `sublist_of` zeekLogs ∧
  (∀ nodeId, filteredLogs zeekLogs toLowerCase (toggleNode nodeId st) =
             filteredLogs zeekLogs toLowerCase st) ∧
  (∀ categoryId enable,
     filteredLogs zeekLogs toLowerCase
       (toggleAllInCategory zeekLogs categoryId enable st) =
     filteredLogs zeekLogs toLowerCase st) ∧
  (∀ categoryId, categoryId ∈ selectedCategories st →
     filteredLogs zeekLogs toLowerCase (toggleCategory categoryId st) =
     List.filter
       (λ log, negb (String.eqb (ZeekLogType.category log) categoryId))
       (filteredLogs zeekLogs toLowerCase st)) ∧
  (searchQuery st = "" →
     filteredLogs zeekLogs toLowerCase st =
     List.filter
       (λ log, bool_decide (ZeekLogType.category log ∈ selectedCategories st))
       zeekLogs).
Proof.
  split; [apply filter_sublist|]. split; [|split; [|split]].
  - intros nodeId. apply filteredLogs_ext;
      unfold toggleNode; by destruct (bool_decide _).
  - intros categoryId enable.
    destruct (toggleAllInCategory_effect zeekLogs categoryId st)
      as (_ & _ & _ & _ & Hframe).
    destruct (Hframe enable). by apply filteredLogs_ext.
  - intros categoryId Hc. unfold filteredLogs. apply filter_filter_andb.
    intros log. unfold keepLog, toggleCategory. simpl.
    rewrite (bool_decide_eq_true_2 _ Hc).
    destruct (String.eqb_spec (ZeekLogType.category log) categoryId)
      as [Heq|Hne].
    + rewrite (bool_decide_eq_false_2
                 (ZeekLogType.category log ∈
                    selectedCategories st ∖ {[categoryId]})).
      * simpl. by rewrite andb_false_r.
      * rewrite elem_of_difference, elem_of_singleton. tauto.
    + rewrite andb_true_r.
      destruct (bool_decide_reflect
                  (ZeekLogType.category log ∈ selectedCategories st))
        as [Hin|Hout].
      * rewrite bool_decide_eq_true_2; [done|].
        rewrite elem_of_difference, elem_of_singleton. tauto.
      * rewrite bool_decide_eq_false_2; [done|].
        rewrite elem_of_difference. tauto.
  - intros Hq. unfold filteredLogs. apply List.filter_ext.
    intros log. unfold keepLog. rewrite Hq. simpl.
    by destruct (bool_decide _).
Qed.

End Sidebar.

(** ** [SearchBar] *)




(** ** Field lists of [FieldDetails] and [LogTypeCard] *)

Lemma includes_empty (s : string) : includes s "" = true.
Proof. apply includes_spec. by exists "", s. Qed.

(** X18. A field is listed in the detail panel exactly when it is a field
    of the log type, the lower-cased search term is a substring of its
    lower-cased name or description, and it is not optional or optional
    fields are shown; the listed fields keep their order, and hiding
    optional fields only removes fields. *)
Theorem X18_filteredFields_spec toLowerCase searchTerm showOptional logType :
  (∀ field,
     field ∈ FieldDetailsPanel.filteredFields toLowerCase searchTerm
               showOptional logType ↔
     field ∈ ZeekLogType.fields logType ∧
     (is_substring (toLowerCase searchTerm)
                   (toLowerCase (ZeekField.name field)) ∨
      is_substring (toLowerCase searchTerm)
                   (toLowerCase (ZeekField.description field))) ∧
     (showOptional = true ∨ ZeekField.optional field = false)) ∧
  FieldDetailsPanel.filteredFields toLowerCase searchTerm showOptional logType
    `sublist_of` ZeekLogType.fields logType ∧
  FieldDetailsPanel.filteredFields toLowerCase searchTerm false logType
    `sublist_of`
    FieldDetailsPanel.filteredFields toLowerCase searchTerm true logType.
Proof.
  split; [|split].
  - intros field. unfold FieldDetailsPanel.filteredFields.
    rewrite list_elem_of_In, List.filter_In, <-list_elem_of_In.
    apply and_iff_compat_l. unfold FieldDetailsPanel.keepField.
    rewrite andb_true_iff, !orb_true_iff, !includes_spec, negb_true_iff.
    tauto.
  - apply filter_sublist.
  - unfold FieldDetailsPanel.filteredFields.
    rewrite (filter_filter_andb
               (FieldDetailsPanel.keepField toLowerCase searchTerm false)
               (λ f, negb (ZeekField.optional f))
               (FieldDetailsPanel.keepField toLowerCase searchTerm true)).
    + apply filter_sublist.
    + intros f. unfold FieldDetailsPanel.keepField. simpl.
      by rewrite andb_true_r.
Qed.

(** X19. With an empty search term every field matches the search: showing
    optional fields lists all the fields, and hiding them lists as many
    fields as the footer counts as required. This uses that lower-casing
    the empty string gives the empty string. *)
Theorem X19_empty_search_term toLowerCase logType :
  toLowerCase "" = "" →
  FieldDetailsPanel.filteredFields toLowerCase "" true logType =
    ZeekLogType.fields logType ∧
  length (FieldDetailsPanel.filteredFields toLowerCase "" false logType) =
    FieldDetailsPanel.requiredCount logType ∧
  (FieldDetailsPanel.requiredCount logType ≤
   length (ZeekLogType.fields logType))%nat.
Proof.
  intros Hlow. unfold FieldDetailsPanel.filteredFields,
    FieldDetailsPanel.requiredCount.
  split; [|split].
  - apply filter_all. intros f _. unfold FieldDetailsPanel.keepField.
    by rewrite Hlow, includes_empty.
  - f_equal. apply List.filter_ext. intros f.
    unfold FieldDetailsPanel.keepField. by rewrite Hlow, includes_empty.
  - apply sublist_length, filter_sublist.
Qed.

Lemma X19_empty_search_term_witness :
  FieldDetailsPanel.filteredFields asciiToLowerCase "" true softwareLog =
    ZeekLogType.fields softwareLog ∧
  length (FieldDetailsPanel.filteredFields asciiToLowerCase "" false
            softwareLog) =
    FieldDetailsPanel.requiredCount softwareLog ∧
  (FieldDetailsPanel.requiredCount softwareLog ≤
   length (ZeekLogType.fields softwareLog))%nat.
Proof.
  apply (X19_empty_search_term asciiToLowerCase softwareLog). reflexivity.
Defined.

(** X20. The card lists the first eight fields and the panel footer the
    first three related ids; what is listed followed by what is left out
    is the whole list, and the "+N more" count, present exactly when
    something is left out, is the number left out. *)
Theorem X20_truncated_lists logType :
  (LogTypeCardView.shownFields logType ++ drop 8 (ZeekLogType.fields logType)
     = ZeekLogType.fields logType ∧
   (length (LogTypeCardView.shownFields logType) ≤ 8)%nat ∧
   (LogTypeCardView.moreFields logType = None ↔
    LogTypeCardView.shownFields logType = ZeekLogType.fields logType) ∧
   (∀ n, LogTypeCardView.moreFields logType = Some n →
      (0 < n)%nat ∧
      (length (LogTypeCardView.shownFields logType) + n)%nat =
        length (ZeekLogType.fields logType))) ∧
  (FieldDetailsPanel.relatedShown logType ++
     drop 3 (ZeekLogType.relatedLogs logType)
     = ZeekLogType.relatedLogs logType ∧
   (length (FieldDetailsPanel.relatedShown logType) ≤ 3)%nat ∧
   (FieldDetailsPanel.relatedMore logType = None ↔
    FieldDetailsPanel.relatedShown logType = ZeekLogType.relatedLogs logType) ∧
   (∀ n, FieldDetailsPanel.relatedMore logType = Some n →
      (0 < n)%nat ∧
      (length (FieldDetailsPanel.relatedShown logType) + n)%nat =
        length (ZeekLogType.relatedLogs logType))).
Proof.
  assert (H : ∀ (A : Type) (k : nat) (l : list A),
            take k l ++ drop k l = l ∧ (length (take k l) ≤ k)%nat ∧
            ((if (k <? length l)%nat then Some (length l - k)%nat else None)
               = None ↔ take k l = l) ∧
            (∀ n, (if (k <? length l)%nat then Some (length l - k)%nat
                   else None) = Some n →
               (0 < n)%nat ∧ (length (take k l) + n)%nat = length l)).
  { intros A k l. split; [apply take_drop|].
    split; [rewrite length_take; lia|].
    destruct (Nat.ltb_spec k (length l)) as [Hlt|Hge].
    - split.
      + split; [discriminate|]. intros Heq.
        apply (f_equal length) in Heq. rewrite length_take in Heq. lia.
      + intros n Hn. injection Hn as <-. rewrite length_take. lia.
    - split; [|discriminate]. split; [intros _|done]. by apply take_ge. }
  split; apply H.
Qed.

(** ** [PivotPanel] *)

Lemma elem_of_pushPivot c pivots q p :
  p ∈ PivotPanel.pushPivot c pivots q ↔ p ∈ pivots ∨ (c = true ∧ p = q).
Proof.
  unfold PivotPanel.pushPivot. destruct c.
  - rewrite elem_of_app, list_elem_of_singleton. tauto.
  - split; [by left | intros [H|[H _]]; [done | discriminate]].
Qed.

(** The pivot points of a log type, as a disjunction over the pushes. *)
Lemma elem_of_getPivotPoints allLogTypes log p :
  p ∈ PivotPanel.getPivotPoints allLogTypes log ↔
  (existsb isUidField (ZeekLogType.fields log) = true ∧
   p = PivotPanel.uidPivot) ∨
  (existsb isIpField (ZeekLogType.fields log) = true ∧
   p = PivotPanel.ipPivot) ∨
  (existsb PivotPanel.isHashField (ZeekLogType.fields log) = true ∧
   p = PivotPanel.hashPivot) ∨
  (existsb PivotPanel.isCertificateField (ZeekLogType.fields log) = true ∧
   p = PivotPanel.certificatePivot) ∨
  (existsb isHostField (ZeekLogType.fields log) = true ∧
   p = PivotPanel.hostnamePivot) ∨
  ((existsb PivotPanel.isSoftwareField (ZeekLogType.fields log) = true ∧
    ZeekLogType.id log = "software") ∧
   p = PivotPanel.softwarePivot) ∨
  p = PivotPanel.timePivot allLogTypes.
Proof.
  unfold PivotPanel.getPivotPoints. cbv zeta.
  rewrite elem_of_app, list_elem_of_singleton, !elem_of_pushPivot,
    elem_of_nil, andb_true_iff, String.eqb_eq.
  tauto.
Qed.

Lemma getPivotPoints_keys allLogTypes log :
  PivotPanel.field <$> PivotPanel.getPivotPoints allLogTypes log
    `sublist_of` pivotKeys ∧
  (1 ≤ length (PivotPanel.getPivotPoints allLogTypes log) ≤ 7)%nat.
Proof.
  unfold PivotPanel.getPivotPoints. cbv zeta.
  destruct (existsb isUidField _), (existsb isIpField _),
    (existsb PivotPanel.isHashField _),
    (existsb PivotPanel.isCertificateField _), (existsb isHostField _),
    (existsb PivotPanel.isSoftwareField _ && _);
    (split; [simpl; solve [repeat constructor] | simpl; lia]).
Qed.

Lemma NoDup_pivotKeys : NoDup pivotKeys.
Proof.
  unfold pivotKeys.
  repeat (constructor; [intros H; invert_elem_of|]). constructor.
Qed.

(** X21. The pivot points of a log type are never empty and at most seven;
    the last one is the timestamp pivot, whose targets are the ids of all
    catalog entries; their keys are pairwise different and follow a fixed
    order; and the software pivot appears only for the log type with id
    "software". *)
Theorem X21_getPivotPoints_shape allLogTypes log :
  last (PivotPanel.getPivotPoints allLogTypes log) =
    Some (PivotPanel.timePivot allLogTypes) ∧
  PivotPanel.targetLogs (PivotPanel.timePivot allLogTypes) =
    ZeekLogType.id <$> allLogTypes ∧
  (1 ≤ length (PivotPanel.getPivotPoints allLogTypes log) ≤ 7)%nat ∧
  PivotPanel.field <$> PivotPanel.getPivotPoints allLogTypes log
    `sublist_of` pivotKeys ∧
  NoDup (PivotPanel.field <$> PivotPanel.getPivotPoints allLogTypes log) ∧
  (PanelHas allLogTypes log "Software Name/Version" →
   ZeekLogType.id log = "software").
Proof.
  destruct (getPivotPoints_keys allLogTypes log) as [Hsub Hlen].
  split; [apply last_snoc|]. split.
  { simpl. induction allLogTypes as [|l ls IH]; [done|]. simpl. by f_equal. }
  split; [done|]. split; [done|].
  split; [eapply sublist_NoDup; eauto using NoDup_pivotKeys|].
  intros (p & Hp & Hkey). apply elem_of_getPivotPoints in Hp.
  destruct Hp as [[_ ->]|[[_ ->]|[[_ ->]|[[_ ->]|[[_ ->]|[[[_ H] _]| ->]]]]]];
    try discriminate. exact H.
Qed.

Lemma panelHas_uid allLogTypes log :
  PanelHas allLogTypes log "uid" ↔ HasUidField log.
Proof.
  rewrite <-isUidField_spec. unfold PanelHas. split.
  - intros (p & Hp & Hkey). apply elem_of_getPivotPoints in Hp.
    destruct Hp as [[H ->]|[[_ ->]|[[_ ->]|[[_ ->]|[[_ ->]|[[_ ->]| ->]]]]]];
      try discriminate. exact H.
  - intros H. exists PivotPanel.uidPivot. split; [|done].
    apply elem_of_getPivotPoints. by left.
Qed.

Lemma panelHas_ip allLogTypes log :
  PanelHas allLogTypes log "id.orig_h / id.resp_h" ↔ HasIpField log.
Proof.
  rewrite <-isIpField_spec. unfold PanelHas. split.
  - intros (p & Hp & Hkey). apply elem_of_getPivotPoints in Hp.
    destruct Hp as [[_ ->]|[[H ->]|[[_ ->]|[[_ ->]|[[_ ->]|[[_ ->]| ->]]]]]];
      try discriminate. exact H.
  - intros H. exists PivotPanel.ipPivot. split; [|done].
    apply elem_of_getPivotPoints. right. by left.
Qed.

Lemma panelHas_host allLogTypes log :
  PanelHas allLogTypes log "Hostname/FQDN" ↔ HasHostField log.
Proof.
  rewrite <-isHostField_spec. unfold PanelHas. split.
  - intros (p & Hp & Hkey). apply elem_of_getPivotPoints in Hp.
    destruct Hp as [[_ ->]|[[_ ->]|[[_ ->]|[[_ ->]|[[H ->]|[[_ ->]| ->]]]]]];
      try discriminate. exact H.
  - intros H. exists PivotPanel.hostnamePivot. split; [|done].
    apply elem_of_getPivotPoints. do 4 right. by left.
Qed.

Lemma panelHas_hash allLogTypes log :
  HasHashField log → PanelHas allLogTypes log "File Hashes (md5/sha1/sha256)".
Proof.
  rewrite <-isHashField_spec. intros H.
  exists PivotPanel.hashPivot. split; [|done].
  apply elem_of_getPivotPoints. do 2 right. left. split; [|done].
  apply existsb_elem_of in H as (f & Hf & Hp).
  apply existsb_elem_of. exists f. split; [done|].
  unfold PivotPanel.isHashField. unfold isHashField in Hp.
  by rewrite Hp.
Qed.

(** X22. The graph and the pivot panel agree on three pivots: a link
    between two log types carries "uid", "IP" or "hostname" exactly when
    the panels of both list the pivot point with key "uid",
    "id.orig_h / id.resp_h" or "Hostname/FQDN"; and a link that carries
    "hash" joins two log types whose panels both list the file-hash pivot
    point. *)
Theorem X22_graph_agrees_with_panel allLogTypes log1 log2 pivots :
  findPivotProperties (Some log1) (Some log2) = Ok pivots →
  ("uid" ∈ pivots ↔
   PanelHas allLogTypes log1 "uid" ∧ PanelHas allLogTypes log2 "uid") ∧
  ("IP" ∈ pivots ↔
   PanelHas allLogTypes log1 "id.orig_h / id.resp_h" ∧
   PanelHas allLogTypes log2 "id.orig_h / id.resp_h") ∧
  ("hostname" ∈ pivots ↔
   PanelHas allLogTypes log1 "Hostname/FQDN" ∧
   PanelHas allLogTypes log2 "Hostname/FQDN") ∧
  ("hash" ∈ pivots →
   PanelHas allLogTypes log1 "File Hashes (md5/sha1/sha256)" ∧
   PanelHas allLogTypes log2 "File Hashes (md5/sha1/sha256)").
Proof.
  rewrite findPivotProperties_Some. intros H. injection H as <-.
  match goal with
  | |- context [pivotsOf ?u ?i ?h ?o] =>
      destruct (pivotsOf_tags u i h o) as (_ & Hu & Hi & Hh & Ho & _)
  end.
  rewrite !panelHas_uid, !panelHas_ip, !panelHas_host.
  rewrite <-!isUidField_spec, <-!isIpField_spec, <-!isHostField_spec,
    <-!andb_true_iff.
  split; [done|]. split; [done|]. split; [done|].
  intros Hhash. apply Hh, andb_true_iff in Hhash as [H1 H2].
  split; apply panelHas_hash; by apply isHashField_spec.
Qed.

Lemma X22_graph_agrees_with_panel_witness :
  ("uid" ∈ ["uid"; "IP"; "ts"] ↔
   PanelHas sampleCatalog
     (mkLog "conn" "network" ["ts"; "uid"; "id.orig_h"; "id.resp_h"]
            ["dns"; "http"]) "uid" ∧
   PanelHas sampleCatalog
     (mkLog "dns" "network" ["ts"; "uid"; "id.orig_h"; "query"] ["conn"])
     "uid").
Proof.
  apply (X22_graph_agrees_with_panel sampleCatalog
           (mkLog "conn" "network" ["ts"; "uid"; "id.orig_h"; "id.resp_h"]
                  ["dns"; "http"])
           (mkLog "dns" "network" ["ts"; "uid"; "id.orig_h"; "query"]
                  ["conn"])
           ["uid"; "IP"; "ts"]).
  vm_compute. reflexivity.
Defined.

Lemma elem_of_renderedButtons allLogTypes pivot i log :
  (i, log) ∈ PivotPanel.renderedButtons allLogTypes pivot ↔
  i ∈ take 8 (PivotPanel.targetLogs pivot) ∧ findLog allLogTypes i = Some log.
Proof.
  unfold PivotPanel.renderedButtons, PivotPanel.targetButtons.
  rewrite list_elem_of_omap. split.
  - intros (b & Hb & Hsome). subst b.
    apply list_elem_of_In, in_map_iff in Hb as (j & Hj & Hin).
    destruct (findLog allLogTypes j) as [l|] eqn:Hf; [|discriminate].
    injection Hj as <- <-. split; [by apply list_elem_of_In | done].
  - intros [Hin Hf]. exists (Some (i, log)). split; [|done].
    apply list_elem_of_In, in_map_iff. exists i. rewrite Hf.
    split; [done | by apply list_elem_of_In].
Qed.

(** X23. The target buttons of a pivot point are built from its first
    eight target ids: a button is rendered for an id exactly when the
    catalog has an entry with that id, and it shows the first such entry;
    an id the catalog does not have is passed over. Clicking a rendered
    button with a non-empty id selects a log type that is then the
    selected log type of the application. *)
Theorem X23_target_buttons allLogTypes pivot :
  (∀ i log, (i, log) ∈ PivotPanel.renderedButtons allLogTypes pivot →
     i ∈ take 8 (PivotPanel.targetLogs pivot) ∧
     log ∈ allLogTypes ∧ ZeekLogType.id log = i) ∧
  (∀ i, i ∈ take 8 (PivotPanel.targetLogs pivot) →
     ((∃ log, (i, log) ∈ PivotPanel.renderedButtons allLogTypes pivot) ↔
      ∃ l, l ∈ allLogTypes ∧ ZeekLogType.id l = i)) ∧
  (length (PivotPanel.targetButtons allLogTypes pivot) ≤ 8)%nat ∧
  (∀ i log st, (i, log) ∈ PivotPanel.renderedButtons allLogTypes pivot →
     i ≠ "" →
     selectedLogType allLogTypes (setSelectedNode (Some i) st) = Some log).
Proof.
  split; [|split; [|split]].
  - intros i log H. apply elem_of_renderedButtons in H as [Hin Hf].
    apply findLog_Some in Hf as [Hl Hid]. done.
  - intros i Hin. split.
    + intros (log & H). apply elem_of_renderedButtons in H as [_ Hf].
      apply findLog_Some in Hf as [Hl Hid]. eauto.
    + intros (l & Hl & <-). destruct (findLog_elem_of _ _ Hl) as [l' Hl'].
      exists l'. by apply elem_of_renderedButtons.
  - unfold PivotPanel.targetButtons.
    rewrite List.length_map, length_take. lia.
  - intros i log st H Hne. apply elem_of_renderedButtons in H as [_ Hf].
    unfold selectedLogType, setSelectedNode. simpl.
    apply nonempty_spec in Hne. by rewrite Hne.
Qed.

(** ** Hover highlighting *)

Lemma Touches_nodes d n link s t :
  simSource link = EndNode s → simTarget link = EndNode t →
  (Touches d n link ↔
   (Node.id s = d ∧ Node.id t = n) ∨ (Node.id t = d ∧ Node.id s = n)).
Proof.
  intros Hs Ht. unfold Touches. split.
  - intros (s0 & t0 & Hs0 & Ht0 & H).
    rewrite Hs in Hs0. rewrite Ht in Ht0.
    injection Hs0 as <-. injection Ht0 as <-. exact H.
  - intros H. by exists s, t.
Qed.

Lemma Touches_ids d n link :
  (∃ i, simSource link = EndId i) ∨ (∃ j, simTarget link = EndId j) →
  ¬ Touches d n link.
Proof.
  intros [[i Hi]|[j Hj]] (s & t & Hs & Ht & _); congruence.
Qed.

Lemma elem_of_addConnected d acc link n :
  n ∈ addConnected d acc link ↔ n ∈ acc ∨ Touches d n link.
Proof.
  unfold addConnected.
  destruct (simSource link) as [i|s] eqn:Hs, (simTarget link) as [j|t] eqn:Ht.
  - pose proof (Touches_ids d n link). split; [by left|].
    intros [H0|H0]; [done|]. exfalso. apply H; eauto.
  - pose proof (Touches_ids d n link). split; [by left|].
    intros [H0|H0]; [done|]. exfalso. apply H; eauto.
  - pose proof (Touches_ids d n link). split; [by left|].
    intros [H0|H0]; [done|]. exfalso. apply H; eauto.
  - rewrite (Touches_nodes d n link s t Hs Ht).
    destruct (String.eqb_spec (Node.id s) d) as [Hsd|Hsd],
             (String.eqb_spec (Node.id t) d) as [Htd|Htd];
      rewrite ?elem_of_union, ?elem_of_singleton;
      split; intros H; intuition congruence.
Qed.

Lemma elem_of_connectedNodes links d n :
  n ∈ connectedNodes links d ↔ ∃ link, link ∈ links ∧ Touches d n link.
Proof.
  unfold connectedNodes.
  assert (H : ∀ acc, n ∈ fold_left (addConnected d) links acc ↔
                     n ∈ acc ∨ ∃ link, link ∈ links ∧ Touches d n link).
  { induction links as [|l links IH]; intros acc.
    - simpl. split; [by left | intros [H|(l & Hl & _)]; [done|]].
      by apply elem_of_nil in Hl.
    - cbn [fold_left]. rewrite IH, elem_of_addConnected. split.
      + intros [[H|H]|(l' & Hl' & H)]; [by left | right | right].
        * exists l. split; [left | done].
        * exists l'. split; [by right | done].
      + intros [H|(l' & Hl' & H)]; [by left; left|].
        apply elem_of_cons in Hl' as [->|Hl']; [left; by right|].
        right. by exists l'. }
  rewrite H. split; [intros [Hc|Hc]; [by apply not_elem_of_empty in Hc | done]
                    | by right].
Qed.

Lemma Touches_sym d n link : Touches d n link ↔ Touches n d link.
Proof. unfold Touches. split; intros (s & t & Hs & Ht & H); exists s, t; tauto. Qed.

(** X24. While a node is hovered, the nodes kept at full opacity are the
    hovered node and the nodes at the other end of a link that has it at
    one end. The relation is symmetric: hovering [d] keeps [n] exactly
    when hovering [n] keeps [d]. Links whose ends are still ids, not
    nodes, connect nothing. *)
Theorem X24_hover_neighbours links d n :
  (nodeEmphasised links d n = true ↔
   n = d ∨ ∃ link, link ∈ links ∧ Touches d n link) ∧
  nodeEmphasised links d n = nodeEmphasised links n d ∧
  (nodeOpacity links d n = 1%float ↔ nodeEmphasised links d n = true) ∧
  ((∀ link, link ∈ links →
      ∃ i j, simSource link = EndId i ∧ simTarget link = EndId j) →
   connectedNodes links d = ∅).
Proof.
  assert (Hchar : ∀ d n, nodeEmphasised links d n = true ↔
            n = d ∨ ∃ link, link ∈ links ∧ Touches d n link).
  { intros d0 n0. unfold nodeEmphasised.
    by rewrite orb_true_iff, String.eqb_eq, bool_decide_eq_true,
      elem_of_connectedNodes. }
  split; [apply Hchar|]. split; [|split].
  - apply eq_true_iff_eq. rewrite !Hchar.
    setoid_rewrite (Touches_sym d n). split; intros [->|H]; auto.
  - unfold nodeOpacity. destruct (nodeEmphasised links d n); [done|].
    split; [|discriminate]. intros H. exfalso.
    assert (Hb : PrimFloat.eqb 0x1.3333333333333p-2%float 1%float = true)
      by (rewrite H; reflexivity).
    vm_compute in Hb. discriminate.
  - intros Hids. apply set_eq. intros x.
    rewrite elem_of_connectedNodes. split.
    + intros (link & Hl & s & t & Hs & _).
      destruct (Hids link Hl) as (i & j & Hi & _). congruence.
    + intros H. by apply not_elem_of_empty in H.
Qed.

(** X25. While a node is hovered, a link is kept at full opacity exactly
    when the hovered node is at one of its ends, and the nodes at both
    ends of such a link, once the ends are nodes, are kept at full opacity
    too. *)
Theorem X25_hover_links links d link :
  (linkEmphasised d link = true ↔
   endId (simSource link) = d ∨ endId (simTarget link) = d) ∧
  (∀ s t, link ∈ links →
     simSource link = EndNode s → simTarget link = EndNode t →
     linkEmphasised d link = true →
     nodeEmphasised links d (Node.id s) = true ∧
     nodeEmphasised links d (Node.id t) = true).
Proof.
  assert (Hl : linkEmphasised d link = true ↔
               endId (simSource link) = d ∨ endId (simTarget link) = d).
  { unfold linkEmphasised. by rewrite orb_true_iff, !String.eqb_eq. }
  split; [exact Hl|].
  intros s t Hin Hs Ht Hemph. apply Hl in Hemph. rewrite Hs, Ht in Hemph.
  simpl in Hemph. unfold nodeEmphasised.
  rewrite !orb_true_iff, !String.eqb_eq, !bool_decide_eq_true,
    !elem_of_connectedNodes.
  destruct Hemph as [Hd|Hd].
  - split; [by left|]. right. exists link. split; [done|].
    exists s, t. tauto.
  - split; [|by left]. right. exists link. split; [done|].
    exists s, t. tauto.
Qed.

(** ** Field type styling, away from the inherited names *)

(** X26. For a type string that is not one of the names an object literal
    inherits, both helpers return a string: the style of the table for a
    type of the enumeration, which is never the default, and the default
    style for every other type. *)
Theorem X26_getTypeColor_styles type :
  type ∉ objectPrototypeKeys →
  (type ∈ knownTypes →
   (∃ s, FieldDetails.colors !! type = Some s ∧
         FieldDetails.getTypeColor type = VString s ∧
         s ≠ FieldDetails.defaultStyle) ∧
   (∃ s, LogTypeCard.colors !! type = Some s ∧
         LogTypeCard.getTypeColor type = VString s ∧
         s ≠ LogTypeCard.defaultStyle)) ∧
  (type ∉ knownTypes →
   FieldDetails.getTypeColor type = VString FieldDetails.defaultStyle ∧
   LogTypeCard.getTypeColor type = VString LogTypeCard.defaultStyle).
Proof.
  intros Hproto. split.
  - intros H. unfold knownTypes in H.
    repeat (apply elem_of_cons in H as [->|H];
            [split; eexists;
             (split; [by vm_compute | split; [by vm_compute | discriminate]])|]).
    by apply elem_of_nil in H.
  - intros Hk. by apply getTypeColor_default.
Qed.

Lemma X26_getTypeColor_styles_witness :
  FieldDetails.getTypeColor "subnet" = VString FieldDetails.defaultStyle ∧
  LogTypeCard.getTypeColor "subnet" = VString LogTypeCard.defaultStyle.
Proof.
  apply (X26_getTypeColor_styles "subnet").
  - intros H. unfold objectPrototypeKeys in H. invert_elem_of.
  - intros H. unfold knownTypes in H. invert_elem_of.
Defined.
